(** * Newton-CG outer driver of oneDAL (newton_cg_dpc.cpp)

    A shallow embedding of
    [oneapi::dal::backend::primitives::newton_cg] and of the sequence of
    device operations it issues, together with the properties its
    specification states about it.

    The driver is a template over the floating-point type and works against
    the abstract class [base_function] and a handful of device primitives
    declared in headers that are outside the translated file.  The embedding
    mirrors that: the floating-point type is an interface ([FloatOps]), the
    objective is an interface ([base_function]) and the primitives whose
    numeric result depends on code we do not have are an interface
    ([Primitives]).  Every call the driver makes is appended to a trace, with
    the buffers it reads and writes, the dependency list it was issued with
    and the completion handle it returned. *)

From Stdlib Require Import ZArith List Bool Lia QArith Lqa Floats.
Import ListNotations.
Local Open Scope Z_scope.

(** ** The floating-point type of the template *)

(** [template <typename Float>]: the operations the driver applies to
    [Float] values.  No law is assumed here, so a statement proved over this
    interface holds whatever the comparison answers (NaN included). *)
Class FloatOps (Float : Type) := {
  F0 : Float;                       (* Float(0) *)
  F1 : Float;                       (* Float(1), and the 1 of [tol + 1] *)
  F10 : Float;                      (* the 10 of [tol_k /= 10] *)
  Fhalf : Float;                    (* the 0.5 of [std::min<Float>(.., 0.5)] *)
  F1e_4 : Float;                    (* Float(1e-4) *)
  fadd : Float -> Float -> Float;
  fmul : Float -> Float -> Float;
  fdiv : Float -> Float -> Float;
  fneg : Float -> Float;
  fsqrt : Float -> Float;
  fltb : Float -> Float -> bool     (* operator< *)
}.

(** [std::min<Float>(a, b)] is [(b < a) ? b : a]. *)
Definition fmin {Float} `{FloatOps Float} (a b : Float) : Float :=
  if fltb b a then b else a.

(** ** Events, buffers and the trace of issued calls *)

(** A [sycl::event]: the default-constructed one ([sycl::event last = {}]),
    one handed in by the caller through [deps], or the completion handle of
    the k-th call of the trace. *)
Inductive event : Type :=
| ev_default
| ev_ext (n : nat)
| ev_op (n : nat).

Definition event_eqb (a b : event) : bool :=
  match a, b with
  | ev_default, ev_default => true
  | ev_ext n, ev_ext m => Nat.eqb n m
  | ev_op n, ev_op m => Nat.eqb n m
  | _, _ => false
  end.

Definition event_vector := list event.

(** The device buffers the driver touches: the iterate, the gradient buffer
    owned by the objective, the four slices of the scratch allocation and the
    reduction scratch [tmp_gpu]. *)
Inductive buf : Type :=
| X | Gradient | Direction | Buffer1 | Buffer2 | Buffer3 | Tmp.

Definition buf_eqb (a b : buf) : bool :=
  match a, b with
  | X, X | Gradient, Gradient | Direction, Direction
  | Buffer1, Buffer1 | Buffer2, Buffer2 | Buffer3, Buffer3 | Tmp, Tmp => true
  | _, _ => false
  end.

(** The calls of the driver, with the scalar arguments they are given and,
    for the reductions, the scalar the host reads back after
    [wait_and_throw]. *)
Inductive call (Float : Type) : Type :=
| c_update_x (need_hessp : bool)
| c_get_gradient
| c_get_value
| c_get_hessian_product
| c_l1_norm (res : Float)
| c_max_abs (res : Float)
| c_print (iter : Z) (grad_norm grad_max_abs loss : Float)
| c_element_wise_minus
| c_fill (v : Float)
| c_cg_solve (tol atol : Float) (maxiter : Z) (inner_iter : Z)
| c_dot_product (res : Float)
| c_backtracking (alpha c1 : Float) (x0_initialized : bool) (res : Float)
| c_copy.

Arguments c_update_x {Float}.
Arguments c_get_gradient {Float}.
Arguments c_get_value {Float}.
Arguments c_get_hessian_product {Float}.
Arguments c_l1_norm {Float}.
Arguments c_max_abs {Float}.
Arguments c_print {Float}.
Arguments c_element_wise_minus {Float}.
Arguments c_fill {Float}.
Arguments c_cg_solve {Float}.
Arguments c_dot_product {Float}.
Arguments c_backtracking {Float}.
Arguments c_copy {Float}.

(** One entry of the trace.  [op_event] is [None] for a call that returns no
    completion handle (the host-side getters, the print, and [backtracking],
    which returns only the step length). *)
Record op (Float : Type) : Type := mk_op {
  op_call : call Float;
  op_reads : list buf;
  op_writes : list buf;
  op_deps : event_vector;
  op_event : option event
}.

Arguments mk_op {Float}.
Arguments op_call {Float}.
Arguments op_reads {Float}.
Arguments op_writes {Float}.
Arguments op_deps {Float}.
Arguments op_event {Float}.

(** ** The objective and the primitives *)

(** The state of a [base_function<Float>] object: the gradient buffer that
    [get_gradient()] returns a view of, and whatever else the concrete class
    keeps. *)
Record objective (Float Hidden : Type) : Type := mk_objective {
  gradient : list Float;
  hidden : Hidden
}.

Arguments mk_objective {Float Hidden}.
Arguments gradient {Float Hidden}.
Arguments hidden {Float Hidden}.

(** The virtual methods the driver calls on [f]. *)
Class base_function (Float Hidden : Type) := {
  update_x : objective Float Hidden -> list Float -> bool -> objective Float Hidden;
  get_value : objective Float Hidden -> Float;
  get_hessian_product : objective Float Hidden -> list Float -> list Float
}.

(** What [cg_solve] leaves behind: the solution written over its [x]
    argument, the contents of its three scratch vectors, and the number of
    inner iterations it returns next to its event. *)
Record cg_result (Float : Type) : Type := mk_cg_result {
  cg_x : list Float;
  cg_residual : list Float;
  cg_conj_vector : list Float;
  cg_buffer : list Float;
  cg_inner_iter : Z
}.

Arguments mk_cg_result {Float}.
Arguments cg_x {Float}.
Arguments cg_residual {Float}.
Arguments cg_conj_vector {Float}.
Arguments cg_buffer {Float}.
Arguments cg_inner_iter {Float}.

(** What [backtracking] leaves behind: the objective it was handed by
    reference, the accepted point written to its [result] argument, and the
    step length it returns. *)
Record ls_result (Float Hidden : Type) : Type := mk_ls_result {
  ls_f : objective Float Hidden;
  ls_result_buf : list Float;
  ls_alpha : Float
}.

Arguments mk_ls_result {Float Hidden}.
Arguments ls_f {Float Hidden}.
Arguments ls_result_buf {Float Hidden}.
Arguments ls_alpha {Float Hidden}.

(** The primitives of common.hpp, cg_solver.hpp and line_search.hpp, which
    the driver only calls.  Their numeric results are parameters of the
    embedding. *)
Class Primitives (Float Hidden : Type) := {
  l1_norm : list Float -> Float;
  max_abs : list Float -> Float;
  dot_product : list Float -> list Float -> Float;
  (* cg_solve(queue, mul_operator, b, x, ..., tol, atol, maxiter, deps) *)
  cg_solve : (list Float -> list Float) -> list Float -> list Float ->
             Float -> Float -> Z -> cg_result Float;
  (* backtracking(queue, f, x, direction, result, alpha, c1, x0_initialized, deps) *)
  backtracking : objective Float Hidden -> list Float -> list Float ->
                 Float -> Float -> bool -> ls_result Float Hidden
}.

(** Modelled from the spec: the element-wise and copy primitives of
    element_wise.hpp and common.hpp (section 6, [element_wise(fn, input,
    scalar_param, output, deps)], [fill(vector, value, deps)],
    [copy(dest, src, deps)]), as the new contents of the written buffer. *)
Definition element_wise {A} (kernel : A -> A -> A) (input : list A) (arg : A) : list A :=
  map (fun v => kernel v arg) input.

Definition fill {A} (dst : list A) (v : A) : list A :=
  repeat v (length dst).

Definition copy {A} (dst src : list A) : list A := src.

(** [ndarray::get_slice(from, to)] on the contents of the allocation. *)
Definition get_slice {A} (from to : nat) (l : list A) : list A :=
  firstn (to - from) (skipn from l).

(** ** The driver *)

Section Driver.

Context {Float Hidden : Type}.
Context {FO : FloatOps Float}.
Context {BF : base_function Float Hidden}.
Context {PR : Primitives Float Hidden}.

Local Abbreviation vec := (list Float).
Local Abbreviation obj := (objective Float Hidden).

(** The variables of [newton_cg] that live across statements: the buffers
    ([x], the objective [f] with its gradient buffer, [direction] and the
    three scratch slices), the locals of the function body, and the trace of
    calls made so far (newest first). *)
Record state : Type := mk_state {
  x : vec;
  f : obj;
  direction : vec;
  buffer1 : vec;
  buffer2 : vec;
  buffer3 : vec;
  update_norm : Float;
  cur_iter_id : Z;
  inner_iter_sum : Z;
  last_iter_deps : event_vector;
  last : event;
  trace : list (op Float)
}.

Definition set_x (st : state) (v : vec) : state :=
  mk_state v (f st) (direction st) (buffer1 st) (buffer2 st) (buffer3 st)
           (update_norm st) (cur_iter_id st) (inner_iter_sum st)
           (last_iter_deps st) (last st) (trace st).

Definition set_f (st : state) (o : obj) : state :=
  mk_state (x st) o (direction st) (buffer1 st) (buffer2 st) (buffer3 st)
           (update_norm st) (cur_iter_id st) (inner_iter_sum st)
           (last_iter_deps st) (last st) (trace st).

Definition set_direction (st : state) (v : vec) : state :=
  mk_state (x st) (f st) v (buffer1 st) (buffer2 st) (buffer3 st)
           (update_norm st) (cur_iter_id st) (inner_iter_sum st)
           (last_iter_deps st) (last st) (trace st).

Definition set_scratch (st : state) (b1 b2 b3 : vec) : state :=
  mk_state (x st) (f st) (direction st) b1 b2 b3
           (update_norm st) (cur_iter_id st) (inner_iter_sum st)
           (last_iter_deps st) (last st) (trace st).

Definition set_buffer2 (st : state) (v : vec) : state :=
  set_scratch st (buffer1 st) v (buffer3 st).

Definition set_update_norm (st : state) (v : Float) : state :=
  mk_state (x st) (f st) (direction st) (buffer1 st) (buffer2 st) (buffer3 st)
           v (cur_iter_id st) (inner_iter_sum st)
           (last_iter_deps st) (last st) (trace st).

Definition set_cur_iter_id (st : state) (n : Z) : state :=
  mk_state (x st) (f st) (direction st) (buffer1 st) (buffer2 st) (buffer3 st)
           (update_norm st) n (inner_iter_sum st)
           (last_iter_deps st) (last st) (trace st).

Definition set_inner_iter_sum (st : state) (n : Z) : state :=
  mk_state (x st) (f st) (direction st) (buffer1 st) (buffer2 st) (buffer3 st)
           (update_norm st) (cur_iter_id st) n
           (last_iter_deps st) (last st) (trace st).

Definition set_last (st : state) (e : event) : state :=
  mk_state (x st) (f st) (direction st) (buffer1 st) (buffer2 st) (buffer3 st)
           (update_norm st) (cur_iter_id st) (inner_iter_sum st)
           [e] e (trace st).

Definition set_trace (st : state) (t : list (op Float)) : state :=
  mk_state (x st) (f st) (direction st) (buffer1 st) (buffer2 st) (buffer3 st)
           (update_norm st) (cur_iter_id st) (inner_iter_sum st)
           (last_iter_deps st) (last st) t.

(** Writing through the view returned by [f.get_gradient()]. *)
Definition set_gradient (o : obj) (g : vec) : obj :=
  mk_objective g (hidden o).

(** A call that returns a completion handle: the handle is fresh, and the
    call enters the trace with its dependency list. *)
Definition issue (c : call Float) (reads writes : list buf) (deps : event_vector)
           (st : state) : event * state :=
  let e := ev_op (length (trace st)) in
  (e, set_trace st (mk_op c reads writes deps (Some e) :: trace st)).

(** A call that returns no handle. *)
Definition note (c : call Float) (reads writes : list buf) (deps : event_vector)
           (st : state) : state :=
  set_trace st (mk_op c reads writes deps None :: trace st).

(** [kernel_minus = [=](const Float val, Float) -> Float { return -val; }] *)
Definition kernel_minus (val _unused : Float) : Float := fneg val.

(** The body of the descent-direction loop (lines 90-110): one [cg_solve]
    and the [dot_product] that reads [desc] back. *)
Definition attempt (maxinner : Z) (tol_k : Float) (last_event : event) (st : state)
  : Float * event * state :=
  let st := note c_get_hessian_product [] [] [] st in
  let r := cg_solve (get_hessian_product (f st)) (gradient (f st)) (direction st)
                    tol_k F0 maxinner in
  let '(solve_event, st) :=
    issue (c_cg_solve tol_k F0 maxinner (cg_inner_iter r))
          [Gradient; Direction] [Direction; Buffer1; Buffer2; Buffer3]
          [last_event] st in
  let st := set_direction st (cg_x r) in
  let st := set_scratch st (cg_residual r) (cg_conj_vector r) (cg_buffer r) in
  let st := set_inner_iter_sum st (inner_iter_sum st + cg_inner_iter r) in
  let desc := dot_product (gradient (f st)) (direction st) in
  let '(last_event, st) :=
    issue (c_dot_product desc) [Gradient; Direction] [Tmp] [solve_event] st in
  (desc, last_event, st).

(** [while (desc < 0 && iter_num < 10) { if (iter_num > 0) tol_k /= 10;
    iter_num++; ... }].  [None] is running out of fuel. *)
Fixpoint retry_loop (fuel : nat) (maxinner : Z) (desc : Float) (iter_num : Z)
         (tol_k : Float) (last_event : event) (st : state)
  : option (Float * event * state) :=
  if fltb desc F0 && (iter_num <? 10) then
    match fuel with
    | O => None
    | S fuel' =>
        let tol_k := if 0 <? iter_num then fdiv tol_k F10 else tol_k in
        let iter_num := iter_num + 1 in
        let '(desc, last_event, st) := attempt maxinner tol_k last_event st in
        retry_loop fuel' maxinner desc iter_num tol_k last_event st
    end
  else Some (desc, last_event, st).

(** How one pass through the body of the outer loop ends: [break], the
    [return] of line 115 with its tuple, or falling through to the next
    test of the loop condition. *)
Inductive outcome : Type :=
| Break (st : state)
| Return (ev : event) (outer inner : Z) (st : state)
| Continue (st : state).

(** The scalars read back at the top of an iteration. *)
Definition grad_norm_at (st : state) : Float :=
  l1_norm (gradient (update_x (f st) (x st) true)).

Definition grad_max_abs_at (st : state) : Float :=
  max_abs (gradient (update_x (f st) (x st) true)).

(** Lines 60-70: count the iteration, evaluate the objective at [x], read
    the two norms back and print them. *)
Definition evaluate (st : state) : event_vector * Float * Float * state :=
  let st := set_cur_iter_id st (cur_iter_id st + 1) in
  let o := update_x (f st) (x st) true in
  let '(update_event, st) :=
    issue (c_update_x true) [X] [Gradient] (last_iter_deps st) st in
  let st := set_f st o in
  let update_event_vec := [update_event] in
  let st := note c_get_gradient [] [] [] st in
  let grad_norm := l1_norm (gradient (f st)) in
  let '(_, st) := issue (c_l1_norm grad_norm) [Gradient] [Tmp] update_event_vec st in
  let grad_max_abs := max_abs (gradient (f st)) in
  let '(_, st) := issue (c_max_abs grad_max_abs) [Gradient] [Tmp] update_event_vec st in
  let st := note c_get_value [] [] [] st in
  let st := note (c_print (cur_iter_id st) grad_norm grad_max_abs (get_value (f st)))
                 [] [] [] st in
  (update_event_vec, grad_norm, grad_max_abs, st).

(** Lines 77-87: the inner tolerance, the negation of the gradient in place
    and the zeroing of [direction]. *)
Definition prepare (update_event_vec : event_vector) (st : state) : event * state :=
  let '(prepare_grad_event, st) :=
    issue c_element_wise_minus [Gradient] [Gradient] update_event_vec st in
  let st := set_f st (set_gradient (f st) (element_wise kernel_minus (gradient (f st)) F0)) in
  let '(init_dir_event, st) :=
    issue (c_fill F0) [] [Direction] [prepare_grad_event] st in
  let st := set_direction st (fill (direction st) F0) in
  (init_dir_event, st).

(** Lines 118-143: the line search, the update norm and the copy of
    [buffer2] into [x]. *)
Definition accept (last_event : event) (st : state) : state :=
  let r := backtracking (f st) (x st) (direction st) F1 F1e_4 true in
  let st := note (c_backtracking F1 F1e_4 true (ls_alpha r))
                 [X; Direction] [Buffer2; Gradient] [last_event] st in
  let st := set_f st (ls_f r) in
  let st := set_buffer2 st (ls_result_buf r) in
  let alpha_opt := ls_alpha r in
  let st := set_update_norm st F0 in
  let dd := dot_product (direction st) (direction st) in
  let '(_, st) :=
    issue (c_dot_product dd) [Direction; Direction] [Tmp] [last_event] st in
  let st := set_update_norm st dd in
  let st := set_update_norm st (fmul (fsqrt (update_norm st)) alpha_opt) in
  let '(copy_event, st) := issue c_copy [Buffer2] [X] [] st in
  let st := set_x st (copy (x st) (buffer2 st)) in
  set_last st copy_event.

(** The body of [while (cur_iter_id < maxiter)]. *)
Definition outer_body (tol : Float) (maxinner : Z) (st : state) : option outcome :=
  let '(update_event_vec, grad_norm, grad_max_abs, st) := evaluate st in
  if fltb grad_max_abs tol then Some (Break st)
  else
    let tol_k := fmin (fsqrt grad_norm) Fhalf in
    let '(init_dir_event, st) := prepare update_event_vec st in
    match retry_loop 10 maxinner (fneg F1) 0 tol_k init_dir_event st with
    | None => None
    | Some (desc, last_event, st) =>
        if fltb desc F0 then
          Some (Return last_event (cur_iter_id st) (inner_iter_sum st) st)
        else Some (Continue (accept last_event st))
    end.

(** The value of the returned tuple, with the state the call leaves. *)
Record result : Type := mk_result {
  res_event : event;
  res_outer_iters : Z;
  res_inner_iters : Z;
  res_state : state
}.

Definition leave (st : state) : result :=
  mk_result (last st) (cur_iter_id st) (inner_iter_sum st) st.

(** [while (cur_iter_id < maxiter) { ... } return make_tuple(last, ...)]. *)
Fixpoint outer_loop (fuel : nat) (tol : Float) (maxiter maxinner : Z) (st : state)
  : option result :=
  if cur_iter_id st <? maxiter then
    match fuel with
    | O => None
    | S fuel' =>
        match outer_body tol maxinner st with
        | None => None
        | Some (Break st') => Some (leave st')
        | Some (Return ev outer inner st') => Some (mk_result ev outer inner st')
        | Some (Continue st') => outer_loop fuel' tol maxiter maxinner st'
        end
    end
  else Some (leave st).

(** Lines 38-58: the state on entry of the outer loop.  [alloc] is the
    contents of the uninitialised allocation of [4 * n + 1] values. *)
Definition entry (f0 : obj) (x0 : vec) (tol : Float) (deps : event_vector)
           (alloc : vec) : state :=
  let n := length x0 in
  mk_state x0 f0
           (get_slice (3 * n) (4 * n) alloc)
           (get_slice 0 n alloc)
           (get_slice n (2 * n) alloc)
           (get_slice (2 * n) (3 * n) alloc)
           (fadd tol F1) 0 0 deps ev_default [].

Definition newton_cg (f0 : obj) (x0 : vec) (tol : Float) (maxiter maxinner : Z)
           (deps : event_vector) (alloc : vec) : option result :=
  outer_loop (Z.to_nat maxiter) tol maxiter maxinner (entry f0 x0 tol deps alloc).

End Driver.

(** ** Reading the trace *)

Section TraceReading.

Context {Float : Type}.

Definition is_cg_solve (o : op Float) : bool :=
  match op_call o with c_cg_solve _ _ _ _ => true | _ => false end.

Definition is_backtracking (o : op Float) : bool :=
  match op_call o with c_backtracking _ _ _ _ => true | _ => false end.

Definition is_copy (o : op Float) : bool :=
  match op_call o with c_copy => true | _ => false end.

(** The calls on the objective: [update_x], [get_gradient], [get_value],
    [get_hessian_product], and the line search, which is handed [f]. *)
Definition is_objective_call (o : op Float) : bool :=
  match op_call o with
  | c_update_x _ | c_get_gradient | c_get_value | c_get_hessian_product
  | c_backtracking _ _ _ _ => true
  | _ => false
  end.

Definition writes_buf (b : buf) (o : op Float) : bool :=
  existsb (buf_eqb b) (op_writes o).

Definition reads_buf (b : buf) (o : op Float) : bool :=
  existsb (buf_eqb b) (op_reads o).

End TraceReading.

(** ** The calls of each phase of an iteration *)

Section PhaseCalls.

Context {Float Hidden : Type}.
Context {FO : FloatOps Float}.
Context {BF : base_function Float Hidden}.
Context {PR : Primitives Float Hidden}.

Local Abbreviation state := (@state Float Hidden).


(** The six calls of lines 62-70, newest first, issued after [n] calls. *)
Definition evaluate_ops (st : state) : list (op Float) :=
  let n := length (trace st) in
  let o := update_x (f st) (x st) true in
  [ mk_op (c_print (cur_iter_id st + 1) (l1_norm (gradient o)) (max_abs (gradient o))
                   (get_value o)) [] [] [] None;
    mk_op c_get_value [] [] [] None;
    mk_op (c_max_abs (max_abs (gradient o))) [Gradient] [Tmp] [ev_op n]
          (Some (ev_op (3 + n)));
    mk_op (c_l1_norm (l1_norm (gradient o))) [Gradient] [Tmp] [ev_op n]
          (Some (ev_op (2 + n)));
    mk_op c_get_gradient [] [] [] None;
    mk_op (c_update_x true) [X] [Gradient] (last_iter_deps st) (Some (ev_op n)) ].

(** The two calls of lines 79-83. *)
Definition prepare_ops (uev : event_vector) (st : state) : list (op Float) :=
  let n := length (trace st) in
  [ mk_op (c_fill F0) [] [Direction] [ev_op n] (Some (ev_op (1 + n)));
    mk_op c_element_wise_minus [Gradient] [Gradient] uev (Some (ev_op n)) ].

(** The three calls of one pass of the descent-direction loop. *)
Definition attempt_ops (maxinner : Z) (tol_k : Float) (last_event : event)
           (st : state) : list (op Float) :=
  let n := length (trace st) in
  let r := cg_solve (get_hessian_product (f st)) (gradient (f st)) (direction st)
                    tol_k F0 maxinner in
  [ mk_op (c_dot_product (dot_product (gradient (f st)) (cg_x r)))
          [Gradient; Direction] [Tmp] [ev_op (1 + n)] (Some (ev_op (2 + n)));
    mk_op (c_cg_solve tol_k F0 maxinner (cg_inner_iter r))
          [Gradient; Direction] [Direction; Buffer1; Buffer2; Buffer3]
          [last_event] (Some (ev_op (1 + n)));
    mk_op c_get_hessian_product [] [] [] None ].

(** The three calls of lines 118-142. *)
Definition accept_ops (last_event : event) (st : state) : list (op Float) :=
  let n := length (trace st) in
  let r := backtracking (f st) (x st) (direction st) F1 F1e_4 true in
  [ mk_op c_copy [Buffer2] [X] [] (Some (ev_op (2 + n)));
    mk_op (c_dot_product (dot_product (direction st) (direction st)))
          [Direction; Direction] [Tmp] [last_event] (Some (ev_op (1 + n)));
    mk_op (c_backtracking F1 F1e_4 true (ls_alpha r))
          [X; Direction] [Buffer2; Gradient] [last_event] None ].

End PhaseCalls.

(** ** Ordering of the issued calls *)

Section Ordering.

Context {Float : Type}.

Definition mem_event (e : event) (l : event_vector) : bool :=
  existsb (event_eqb e) l.

(** The call that last wrote [b] in a trace (newest first). *)
Definition last_writer (b : buf) (tr : list (op Float)) : option (op Float) :=
  find (writes_buf b) tr.

(** Every event that has completed once the events of [need] have: the
    events of [need], and the dependency lists of the calls whose handle is
    among them, followed backwards through the trace. *)
Fixpoint closure (tr : list (op Float)) (need : event_vector) : event_vector :=
  match tr with
  | [] => need
  | o :: older =>
      match op_event o with
      | Some e =>
          if mem_event e need then closure older (op_deps o ++ need)
          else closure older need
      | None => closure older need
      end
  end.

(** A call issued after [tr] with dependency list [deps] is ordered after
    the last writer of [b]: that writer's handle is reached from [deps].  A
    writer that returned no handle has nothing that could be listed. *)
Definition covered (tr : list (op Float)) (deps : event_vector) (b : buf) : bool :=
  match last_writer b tr with
  | None => true
  | Some w =>
      match op_event w with
      | None => true
      | Some e => mem_event e (closure tr deps)
      end
  end.

Fixpoint ordered (tr : list (op Float)) : bool :=
  match tr with
  | [] => true
  | o :: older => forallb (covered older (op_deps o)) (op_reads o) && ordered older
  end.

(** The discipline in the words of the specification: a call that reads
    [b] lists the completion handle of the call that last wrote [b] in its
    own dependency list. *)
Definition declared (tr : list (op Float)) (deps : event_vector) (b : buf) : bool :=
  match last_writer b tr with
  | None => true
  | Some w =>
      match op_event w with
      | None => false
      | Some e => mem_event e deps
      end
  end.

Fixpoint declares_producers (tr : list (op Float)) : bool :=
  match tr with
  | [] => true
  | o :: older =>
      forallb (declared older (op_deps o)) (op_reads o) && declares_producers older
  end.

(** Every [copy] of a trace was issued with an empty dependency list, right
    after a [dot_product] that follows a [backtracking] call, the last call
    to have written [buffer2], which returned no handle. *)
Fixpoint commits_follow_line_search (tr : list (op Float)) : bool :=
  match tr with
  | [] => true
  | o :: older =>
      (if is_copy o then
         match op_deps o, op_reads o, last_writer Buffer2 older with
         | [], [Buffer2], Some w =>
             is_backtracking w &&
             match op_event w with None => true | Some _ => false end
         | _, _, _ => false
         end
       else true) && commits_follow_line_search older
  end.

(** The handles of a trace are the positions of its calls. *)
Fixpoint handles_fresh (tr : list (op Float)) : bool :=
  match tr with
  | [] => true
  | o :: older =>
      match op_event o with
      | Some e => event_eqb e (ev_op (length older))
      | None => true
      end && handles_fresh older
  end.

(** *** The descent-direction attempts recorded in a trace *)

Record attempt_info : Type := mk_attempt_info {
  at_tol : Float;
  at_inner : Z;
  at_desc : Float
}.

(** The [cg_solve] calls of a trace, each with the [dot_product] that
    follows it, oldest first. *)
Fixpoint attempts_rev (tr : list (op Float)) : list attempt_info :=
  match tr with
  | [] => []
  | d :: older =>
      match op_call d, older with
      | c_dot_product desc, c :: older' =>
          match op_call c with
          | c_cg_solve tol _ _ inner =>
              mk_attempt_info tol inner desc :: attempts_rev older'
          | _ => attempts_rev older
          end
      | _, _ => attempts_rev older
      end
  end.

Definition attempts (tr : list (op Float)) : list attempt_info :=
  rev (attempts_rev tr).

(** The part of the trace [tr'] added since [tr]. *)
Definition since (tr tr' : list (op Float)) : list (op Float) :=
  firstn (length tr' - length tr) tr'.

(** *** Counting the calls of a trace *)

Definition is_update_x (o : op Float) : bool :=
  match op_call o with c_update_x _ => true | _ => false end.

Definition is_dot_product (o : op Float) : bool :=
  match op_call o with c_dot_product _ => true | _ => false end.

Definition count (p : op Float -> bool) (tr : list (op Float)) : nat :=
  length (filter p tr).

(** The inner-iteration counts returned by the [cg_solve] calls of a trace. *)
Definition cg_inners (tr : list (op Float)) : list Z :=
  flat_map (fun o => match op_call o with
                     | c_cg_solve _ _ _ inner => [inner]
                     | _ => []
                     end) tr.

(** The handle of the newest [copy] of a trace, and the default event when
    there is none. *)
Definition last_commit (tr : list (op Float)) : event :=
  match find is_copy tr with
  | Some o => match op_event o with Some e => e | None => ev_default end
  | None => ev_default
  end.

(** The dependency lists of the [update_x] calls: the oldest call of the
    trace is issued with [deps], and every other [update_x] comes right
    after a [copy] and is issued with the handle of that [copy] alone. *)
Fixpoint updates_chained (deps : event_vector) (tr : list (op Float)) : Prop :=
  match tr with
  | [] => True
  | o :: older =>
      (is_update_x o = true ->
       match older with
       | [] => op_deps o = deps
       | c :: _ => is_copy c = true /\ Some (op_deps o) = option_map (fun e => [e]) (op_event c)
       end) /\
      updates_chained deps older
  end.

End Ordering.

Arguments attempt_info : clear implicits.

(** ** Instances on which the driver runs *)

(** The [double] instantiation ([INSTANTIATE(double)]): IEEE binary64. *)
#[export] Instance double_ops : FloatOps float := {|
  F0 := 0%float;
  F1 := 1%float;
  F10 := 10%float;
  Fhalf := 0.5%float;
  F1e_4 := 0x1.a36e2eb1c432dp-14%float;   (* the binary64 nearest to 1e-4 *)
  fadd := PrimFloat.add;
  fmul := PrimFloat.mul;
  fdiv := PrimFloat.div;
  fneg := PrimFloat.opp;
  fsqrt := PrimFloat.sqrt;
  fltb := PrimFloat.ltb
|}.

(** Exact rationals, on which the order laws of the comparison can be
    proved.  Results are kept in lowest terms; the square root is rounded
    down to an integer. *)
Definition Qltb (a b : Q) : bool := negb (Qle_bool b a).

Definition Qsqrt_floor (q : Q) : Q :=
  inject_Z (Z.sqrt (Qnum q / Zpos (Qden q))).

#[export] Instance rational_ops : FloatOps Q := {|
  F0 := 0%Q;
  F1 := 1%Q;
  F10 := inject_Z 10;
  Fhalf := (1 # 2)%Q;
  F1e_4 := (1 # 10000)%Q;
  fadd := fun a b => Qred (a + b);
  fmul := fun a b => Qred (a * b);
  fdiv := fun a b => Qred (a / b);
  fneg := Qopp;
  fsqrt := Qsqrt_floor;
  fltb := Qltb
|}.

Module Reference.

Section Kernels.

Context {Float : Type} {FO : FloatOps Float}.

Definition fabs (v : Float) : Float := if fltb v F0 then fneg v else v.

(** Modelled from the spec: the reductions of common.hpp (section 2, "L1
    norm, max-abs, dot product"), accumulated left to right from zero. *)
Definition ref_l1_norm (l : list Float) : Float :=
  fold_left (fun acc v => fadd acc (fabs v)) l F0.

Definition ref_max_abs (l : list Float) : Float :=
  fold_left (fun acc v => if fltb acc (fabs v) then fabs v else acc) l F0.

Definition ref_dot_product (a b : list Float) : Float :=
  fold_left (fun acc p => fadd acc (fmul (fst p) (snd p))) (combine a b) F0.

(** [y + a * v], component by component. *)
Definition axpy (a : Float) (v y : list Float) : list Float :=
  map (fun p => fadd (snd p) (fmul a (fst p))) (combine v y).

(** Modelled from the spec: the conjugate-gradient solver of cg_solver.hpp
    (section 4.2): at each inner step compute [p = H d], stop on
    non-positive curvature with the iterate so far, otherwise take the CG
    step, update the residual, stop when its norm is below [tol], and cap
    the number of steps at [maxiter].  With [curvature_test] off the
    curvature is not looked at, which is plain conjugate gradients. *)
Fixpoint cg_steps (curvature_test : bool) (fuel : nat)
         (hessp : list Float -> list Float) (tol : Float)
         (xk r d : list Float) (k : Z) : cg_result Float :=
  match fuel with
  | O => mk_cg_result xk r d (hessp d) k
  | S fuel' =>
      let p := hessp d in
      let curv := ref_dot_product d p in
      if negb curvature_test || fltb F0 curv then
        let rr := ref_dot_product r r in
        let alpha := fdiv rr curv in
        let xk' := axpy alpha d xk in
        let r' := axpy (fneg alpha) p r in
        let rr' := ref_dot_product r' r' in
        if fltb (fsqrt rr') tol then mk_cg_result xk' r' d p (k + 1)
        else cg_steps curvature_test fuel' hessp tol xk' r' (axpy (fdiv rr' rr) d r') (k + 1)
      else mk_cg_result xk r d p k
  end.

Definition ref_cg_solve (curvature_test : bool)
           (hessp : list Float -> list Float) (b x0 : list Float)
           (tol atol : Float) (maxiter : Z) : cg_result Float :=
  let r := axpy (fneg F1) (hessp x0) b in
  cg_steps curvature_test (Z.to_nat maxiter) hessp tol x0 r r 0.

Context {Hidden : Type} {BF : base_function Float Hidden}.

(** Modelled from the spec: the line search of line_search.hpp (section
    4.3): halve the step from [alpha] until the value at [x + step *
    direction] is at most the value at [x] plus [c1 * step] times the
    directional derivative at [x]; the number of halvings is bounded and the
    smallest attempted step is returned when none satisfies the test.  The
    objective is evaluated through [update_x], which leaves the gradient of
    the last point tried in its buffer. *)
Fixpoint halve (fuel : nat) (o : objective Float Hidden) (x direction : list Float)
         (f0 df0 alpha c1 : Float) : ls_result Float Hidden :=
  let trial := axpy alpha direction x in
  let o' := update_x o trial false in
  match fuel with
  | O => mk_ls_result o' trial alpha
  | S fuel' =>
      if fltb (fadd f0 (fmul (fmul c1 alpha) df0)) (get_value o')
      then halve fuel' o' x direction f0 df0 (fdiv alpha (fadd F1 F1)) c1
      else mk_ls_result o' trial alpha
  end.

Definition ref_backtracking (o : objective Float Hidden) (x direction : list Float)
           (alpha c1 : Float) (x0_initialized : bool) : ls_result Float Hidden :=
  let o0 := update_x o x false in
  halve 64 o0 x direction (get_value o0) (ref_dot_product (gradient o0) direction)
        alpha c1.

Definition primitives (curvature_test : bool) : Primitives Float Hidden := {|
  l1_norm := ref_l1_norm;
  max_abs := ref_max_abs;
  dot_product := ref_dot_product;
  cg_solve := ref_cg_solve curvature_test;
  backtracking := ref_backtracking
|}.

End Kernels.

(** The quadratic objective of section 8, [f(x) = 0.5 * |x|^2]: the
    gradient at [x] is [x] and the Hessian is the identity.  The hidden part
    of the object is the point it was last evaluated at. *)
Section Quadratic.

Context {Float : Type} {FO : FloatOps Float}.

Definition quadratic : base_function Float (list Float) := {|
  update_x := fun _ x _ => mk_objective x x;
  get_value := fun o => fmul Fhalf (ref_dot_product (hidden o) (hidden o));
  get_hessian_product := fun _ v => v
|}.

(** An objective that has not been evaluated yet. *)
Definition fresh : objective Float (list Float) := mk_objective [] [].

End Quadratic.

(** The objective [f(x) = -(x_1 + ... + x_n)]: its gradient is constant and
    its Hessian is zero, so every direction has zero curvature. *)
Section Linear.

Context {Float : Type} {FO : FloatOps Float}.

Definition linear : base_function Float (list Float) := {|
  update_x := fun _ x _ => mk_objective (map (fun _ => fneg F1) x) x;
  get_value := fun o => fneg (fold_left fadd (hidden o) F0);
  get_hessian_product := fun _ v => map (fun _ => F0) v
|}.

End Linear.

(** The objective [f(x) = -0.5 * (x_1^2 + 2 x_2^2 + 3 x_3^2 + ...)]: its
    Hessian is diagonal and negative definite. *)
Section Concave.

Context {Float : Type} {FO : FloatOps Float}.

Fixpoint weighted (w : Float) (v : list Float) : list Float :=
  match v with
  | [] => []
  | a :: v' => fmul w a :: weighted (fadd w F1) v'
  end.

Definition concave : base_function Float (list Float) := {|
  update_x := fun _ x _ => mk_objective (map fneg (weighted F1 x)) x;
  get_value := fun o =>
    fneg (fmul Fhalf (ref_dot_product (hidden o) (weighted F1 (hidden o))));
  get_hessian_product := fun _ v => map fneg (weighted F1 v)
|}.

End Concave.

End Reference.

(** ** Runs of the driver *)

Module Runs.

Import Reference.

(** The [double] driver on the objectives of [Reference], with the
    allocation zeroed. *)
Definition double_primitives (BF : base_function float (list float))
           (curvature_test : bool) : Primitives float (list float) :=
  @primitives float double_ops (list float) BF curvature_test.

Definition double_entry (x0 : list float) (tol : float)
  : @state float (list float) :=
  entry fresh x0 tol [] (repeat 0%float (4 * length x0 + 1)).

Definition double_solve (BF : base_function float (list float))
           (curvature_test : bool) (x0 : list float) (tol : float)
           (maxiter maxinner : Z) : option (@result float (list float)) :=
  @newton_cg float (list float) double_ops BF (double_primitives BF curvature_test)
             fresh x0 tol maxiter maxinner [] (repeat 0%float (4 * length x0 + 1)).

(** The same over the rationals. *)
Definition rational_primitives (BF : base_function Q (list Q))
           (curvature_test : bool) : Primitives Q (list Q) :=
  @primitives Q rational_ops (list Q) BF curvature_test.

Definition rational_entry (x0 : list Q) (tol : Q) : @state Q (list Q) :=
  entry fresh x0 tol [] (repeat 0%Q (4 * length x0 + 1)).

(** [tol = 2^-20]. *)
Definition tol20 : float := 0x1p-20%float.

End Runs.

(** ** Vocabulary of the statements *)

Section Vocabulary.

Context {Float Hidden : Type}.
Context {FO : FloatOps Float}.
Context {BF : base_function Float Hidden}.
Context {PR : Primitives Float Hidden}.

Local Abbreviation state := (@state Float Hidden).

(** [tol_k] after [i] divisions by 10. *)
Definition shrink (i : nat) (tol_k : Float) : Float :=
  Nat.iter i (fun t => fdiv t F10) tol_k.

(** How a call of [newton_cg] that entered the loop at [st] comes back
    with [r]: the loop condition fails at [st]; or the body run at [st]
    breaks on the convergence test; or it returns from the failed
    descent-direction search. *)
Inductive exit_at (tol : Float) (maxiter maxinner : Z) (st : state) (r : @result Float Hidden)
  : Prop :=
| exit_cap :
    (cur_iter_id st <? maxiter) = false -> r = leave st ->
    exit_at tol maxiter maxinner st r
| exit_converged st' :
    (cur_iter_id st <? maxiter) = true ->
    outer_body tol maxinner st = Some (Break st') -> r = leave st' ->
    exit_at tol maxiter maxinner st r
| exit_descent_failure ev outer inner st' :
    (cur_iter_id st <? maxiter) = true ->
    outer_body tol maxinner st = Some (Return ev outer inner st') ->
    r = mk_result ev outer inner st' ->
    exit_at tol maxiter maxinner st r.

(** [st'] is the loop head reached from the loop head [st] after some
    number of accepted steps. *)
Inductive reaches (tol : Float) (maxiter maxinner : Z) (st : state) : state -> Prop :=
| reaches_refl : reaches tol maxiter maxinner st st
| reaches_step st1 st2 :
    reaches tol maxiter maxinner st st1 ->
    (cur_iter_id st1 <? maxiter) = true ->
    outer_body tol maxinner st1 = Some (Continue st2) ->
    reaches tol maxiter maxinner st st2.

Definition is_break (o : option (@outcome Float Hidden)) : bool :=
  match o with Some (Break _) => true | _ => false end.

Definition is_return (o : option (@outcome Float Hidden)) : bool :=
  match o with Some (Return _ _ _ _) => true | _ => false end.

Definition is_continue (o : option (@outcome Float Hidden)) : bool :=
  match o with Some (Continue _) => true | _ => false end.

(** The state an outcome carries. *)
Definition state_of (o : @outcome Float Hidden) : state :=
  match o with
  | Break st | Return _ _ _ st | Continue st => st
  end.

(** The descent-direction loop of the iteration run at [st]: the state and
    the event it is entered with, its first tolerance, and its result. *)
Definition search_entry (st : state) : state :=
  snd (prepare (fst (fst (fst (evaluate st)))) (snd (evaluate st))).

Definition search_event (st : state) : event :=
  fst (prepare (fst (fst (fst (evaluate st)))) (snd (evaluate st))).

Definition search_tol (st : state) : Float :=
  fmin (fsqrt (grad_norm_at st)) Fhalf.

Definition search (maxinner : Z) (st : state) : option (Float * event * state) :=
  retry_loop 10 maxinner (fneg F1) 0 (search_tol st) (search_event st) (search_entry st).

(** The eight calls an iteration makes before its descent-direction loop. *)
Definition entry_ops (st : state) : list (op Float) :=
  prepare_ops (fst (fst (fst (evaluate st)))) (snd (evaluate st)) ++ evaluate_ops st.


(** An outcome with [update_norm] overwritten where the iteration has not
    itself assigned it. *)
Definition outcome_norm (u : Float) (o : @outcome Float Hidden) : @outcome Float Hidden :=
  match o with
  | Break s => Break (set_update_norm s u)
  | Return ev outer inner s => Return ev outer inner (set_update_norm s u)
  | Continue s => Continue s
  end.

(** A result with the update norm of its state erased. *)
Definition forget_norm (r : @result Float Hidden) : @result Float Hidden :=
  mk_result (res_event r) (res_outer_iters r) (res_inner_iters r)
            (set_update_norm (res_state r) F0).

(** A call that writes [x] is a [copy]. *)
Definition x_written_by_copy (o : op Float) : bool :=
  implb (writes_buf X o) (is_copy o).

(** What holds of the trace at every loop head: the calls so far are
    ordered, the commits follow line searches, and a call that depends on
    [last_iter_deps] is ordered after the last write of [x]. *)
Definition head_ordered (st : state) : Prop :=
  ordered (trace st) = true /\
  commits_follow_line_search (trace st) = true /\
  covered (trace st) (last_iter_deps st) X = true.

Definition Zsum (l : list Z) : Z := fold_right Z.add 0 l.

(** What holds of the counters and of the trace at every loop head of a
    call entered with the dependency list [deps]. *)
Definition accounted (deps : event_vector) (st : state) : Prop :=
  cur_iter_id st = Z.of_nat (count is_update_x (trace st)) /\
  inner_iter_sum st = Zsum (cg_inners (trace st)) /\
  (count is_cg_solve (trace st) <= 10 * count is_update_x (trace st))%nat /\
  count is_backtracking (trace st) = count is_copy (trace st) /\
  count is_copy (trace st) = count is_update_x (trace st) /\
  last st = last_commit (trace st) /\
  updates_chained deps (trace st) /\
  match trace st with
  | [] => last_iter_deps st = deps
  | c :: _ =>
      is_copy c = true /\ op_event c = Some (last st) /\ last_iter_deps st = [last st]
  end.

(** The calls the descent-direction loop makes; none of them writes [x]. *)
Definition search_call (o : op Float) : bool :=
  match op_call o with
  | c_get_hessian_product | c_cg_solve _ _ _ _ | c_dot_product _ =>
      negb (writes_buf X o) && negb (writes_buf Gradient o)
  | _ => false
  end.

End Vocabulary.

(** The ordering rule in the words of the specification: in every call,
    each call of the trace that reads a buffer lists the handle of the call
    that last wrote that buffer. *)
Definition every_reader_lists_its_producer : Prop :=
  forall (Float Hidden : Type) (FO : FloatOps Float)
         (BF : base_function Float Hidden) (PR : Primitives Float Hidden)
         (f0 : objective Float Hidden) (x0 : list Float) (tol : Float)
         (maxiter maxinner : Z) (deps : event_vector) (alloc : list Float)
         (r : @result Float Hidden),
    newton_cg f0 x0 tol maxiter maxinner deps alloc = Some r ->
    declares_producers (trace (res_state r)) = true.

(** The side effect on the gradient buffer in the words of the
    specification: an iteration that does not converge, whether it ends in
    the failure return or in an accepted step, leaves the negated gradient
    in the buffer of the objective. *)
Definition gradient_stays_negated : Prop :=
  forall (Float Hidden : Type) (FO : FloatOps Float)
         (BF : base_function Float Hidden) (PR : Primitives Float Hidden)
         (tol : Float) (maxinner : Z) (st : @state Float Hidden)
         (out : @outcome Float Hidden),
    outer_body tol maxinner st = Some out ->
    is_break (Some out) = false ->
    gradient (f (state_of out))
    = map fneg (gradient (update_x (f st) (x st) true)).

(** The rule of the descent-direction search in the words of the
    specification: an iteration goes on to the line search only after an
    attempt whose [desc] is positive. *)
Definition only_positive_descent_proceeds : Prop :=
  forall (Float Hidden : Type) (FO : FloatOps Float)
         (BF : base_function Float Hidden) (PR : Primitives Float Hidden)
         (tol : Float) (maxinner : Z) (st st' : @state Float Hidden),
    outer_body tol maxinner st = Some (Continue st') ->
    exists A a,
      attempts (since (trace st) (trace st')) = A ++ [a] /\
      fltb F0 (at_desc a) = true.

(** * Properties *)

(** ** Reachability through dependency lists *)

Section Closure.

Context {Float : Type}.

Lemma event_eqb_eq (a b : event) : event_eqb a b = true <-> a = b.
Proof.
  destruct a, b; simpl; split; intros H; try discriminate; try reflexivity;
    try (apply Nat.eqb_eq in H; subst; reflexivity);
    try (inversion H; apply Nat.eqb_refl).
Qed.

Lemma mem_event_In (e : event) (l : event_vector) : mem_event e l = true <-> In e l.
Proof.
  unfold mem_event. rewrite existsb_exists. split.
  - intros (y & Hy & He). apply event_eqb_eq in He. subst. exact Hy.
  - intros H. exists e. split; [exact H | apply event_eqb_eq; reflexivity].
Qed.

(** The closure grows with the set it starts from. *)
Lemma closure_mono (tr : list (op Float)) :
  forall need need' : event_vector,
    (forall e, In e need -> In e need') ->
    forall e, In e (closure tr need) -> In e (closure tr need').
Proof.
  induction tr as [|o tr IH]; intros need need' Hsub e He; simpl in *; [auto|].
  destruct (op_event o) as [h|]; [|eapply IH; eauto].
  destruct (mem_event h need) eqn:Hm.
  - assert (mem_event h need' = true) as ->.
    { apply mem_event_In. apply Hsub. apply mem_event_In. exact Hm. }
    eapply IH; [|exact He]. intros e' He'. apply in_app_or in He'.
    apply in_or_app. destruct He'; auto.
  - destruct (mem_event h need'); (eapply IH; [|exact He]); auto.
    intros e' He'. apply in_or_app. auto.
Qed.

Lemma closure_incl (tr : list (op Float)) :
  forall (need : event_vector) e, In e need -> In e (closure tr need).
Proof.
  induction tr as [|o tr IH]; intros need e He; simpl; [exact He|].
  destruct (op_event o) as [h|]; [|auto].
  destruct (mem_event h need); [|auto]. apply IH. apply in_or_app. auto.
Qed.

(** A later call takes nothing away from what a dependency list reaches. *)
Lemma closure_cons (o : op Float) (tr : list (op Float)) (need : event_vector) e :
  In e (closure tr need) -> In e (closure (o :: tr) need).
Proof.
  intros He. simpl. destruct (op_event o) as [h|]; [|exact He].
  destruct (mem_event h need); [|exact He].
  eapply closure_mono; [|exact He]. intros e' He'. apply in_or_app. auto.
Qed.

(** Depending on a call is depending on what that call depended on. *)
Lemma closure_through (o : op Float) (tr : list (op Float)) (h : event)
      (need : event_vector) e :
  op_event o = Some h -> In h need ->
  In e (closure tr (op_deps o)) -> In e (closure (o :: tr) need).
Proof.
  intros Ho Hh He. simpl. rewrite Ho.
  assert (mem_event h need = true) as -> by (apply mem_event_In; exact Hh).
  eapply closure_mono; [|exact He]. intros e' He'. apply in_or_app. auto.
Qed.

Lemma last_writer_skip (o : op Float) (tr : list (op Float)) (b : buf) :
  writes_buf b o = false -> last_writer b (o :: tr) = last_writer b tr.
Proof. intros H. unfold last_writer. simpl. rewrite H. reflexivity. Qed.

Lemma covered_weaken (o : op Float) (tr : list (op Float)) (deps : event_vector) b :
  writes_buf b o = false ->
  covered tr deps b = true -> covered (o :: tr) deps b = true.
Proof.
  intros Hw. unfold covered. rewrite (last_writer_skip _ _ _ Hw).
  destruct (last_writer b tr) as [w|]; [|auto].
  destruct (op_event w) as [e|]; [|auto].
  rewrite !mem_event_In. apply closure_cons.
Qed.

Lemma covered_self (o : op Float) (tr : list (op Float)) (h : event) b :
  writes_buf b o = true -> op_event o = Some h ->
  covered (o :: tr) [h] b = true.
Proof.
  intros Hw Ho. unfold covered, last_writer. simpl find. rewrite Hw, Ho.
  apply mem_event_In. apply closure_incl. simpl. auto.
Qed.

Lemma covered_no_handle (o : op Float) (tr : list (op Float)) (deps : event_vector) b :
  writes_buf b o = true -> op_event o = None ->
  covered (o :: tr) deps b = true.
Proof.
  intros Hw Ho. unfold covered, last_writer. simpl find. rewrite Hw, Ho. reflexivity.
Qed.

Lemma covered_through (o : op Float) (tr : list (op Float)) (h : event) b :
  writes_buf b o = false -> op_event o = Some h ->
  covered tr (op_deps o) b = true -> covered (o :: tr) [h] b = true.
Proof.
  intros Hw Ho. unfold covered. rewrite (last_writer_skip _ _ _ Hw).
  destruct (last_writer b tr) as [w|]; [|auto].
  destruct (op_event w) as [e|]; [|auto].
  rewrite !mem_event_In. apply closure_through with (h := h); simpl; auto.
Qed.

End Closure.

Ltac covered_tac :=
  first
    [ assumption
    | apply covered_self; reflexivity
    | apply covered_no_handle; reflexivity
    | apply covered_through; [reflexivity | reflexivity | covered_tac]
    | apply covered_weaken; [reflexivity | covered_tac] ].

Lemma Some_eq {A : Type} (a b : A) : Some a = Some b -> a = b.
Proof. intros H. injection H. auto. Qed.

Lemma Continue_eq {Float Hidden : Type} (a b : @state Float Hidden) :
  Continue a = Continue b -> a = b.
Proof. intros H. injection H. auto. Qed.

(** ** Symbolic execution of the phases of an iteration *)

Section Phases.

Context {Float Hidden : Type}.
Context {FO : FloatOps Float}.
Context {BF : base_function Float Hidden}.
Context {PR : Primitives Float Hidden}.

Local Abbreviation state := (@state Float Hidden).

Lemma evaluate_eq (st : state) :
  evaluate st =
  ([ev_op (length (trace st))], grad_norm_at st, grad_max_abs_at st,
   mk_state (x st) (update_x (f st) (x st) true) (direction st)
            (buffer1 st) (buffer2 st) (buffer3 st) (update_norm st)
            (cur_iter_id st + 1) (inner_iter_sum st) (last_iter_deps st) (last st)
            (evaluate_ops st ++ trace st)).
Proof. reflexivity. Qed.

Lemma prepare_eq (uev : event_vector) (st : state) :
  prepare uev st =
  (ev_op (1 + length (trace st)),
   mk_state (x st)
            (set_gradient (f st) (element_wise kernel_minus (gradient (f st)) F0))
            (fill (direction st) F0)
            (buffer1 st) (buffer2 st) (buffer3 st) (update_norm st)
            (cur_iter_id st) (inner_iter_sum st) (last_iter_deps st) (last st)
            (prepare_ops uev st ++ trace st)).
Proof. reflexivity. Qed.

Lemma attempt_eq (maxinner : Z) (tol_k : Float) (last_event : event) (st : state) :
  attempt maxinner tol_k last_event st =
  let r := cg_solve (get_hessian_product (f st)) (gradient (f st)) (direction st)
                    tol_k F0 maxinner in
  (dot_product (gradient (f st)) (cg_x r),
   ev_op (2 + length (trace st)),
   mk_state (x st) (f st) (cg_x r)
            (cg_residual r) (cg_conj_vector r) (cg_buffer r) (update_norm st)
            (cur_iter_id st) (inner_iter_sum st + cg_inner_iter r)
            (last_iter_deps st) (last st)
            (attempt_ops maxinner tol_k last_event st ++ trace st)).
Proof. reflexivity. Qed.

Lemma accept_eq (last_event : event) (st : state) :
  accept last_event st =
  let r := backtracking (f st) (x st) (direction st) F1 F1e_4 true in
  mk_state (ls_result_buf r) (ls_f r) (direction st)
           (buffer1 st) (ls_result_buf r) (buffer3 st)
           (fmul (fsqrt (dot_product (direction st) (direction st))) (ls_alpha r))
           (cur_iter_id st) (inner_iter_sum st)
           [ev_op (2 + length (trace st))] (ev_op (2 + length (trace st)))
           (accept_ops last_event st ++ trace st).
Proof. reflexivity. Qed.

(** ** The two loops *)

(** The descent-direction loop comes back whenever its fuel covers the
    passes left before [iter_num] reaches 10. *)
Lemma retry_loop_total (maxinner : Z) (fuel : nat) :
  forall desc iter_num tol_k last_event (st : state),
    10 - iter_num <= Z.of_nat fuel ->
    exists r, retry_loop fuel maxinner desc iter_num tol_k last_event st = Some r.
Proof.
  induction fuel as [|fuel IH]; intros desc n tol ev st Hf; cbn [retry_loop].
  - destruct (fltb desc F0); cbn [andb]; [|eauto].
    destruct (n <? 10) eqn:E; [apply Z.ltb_lt in E; lia | eauto].
  - destruct (fltb desc F0 && (n <? 10)); [|eauto].
    rewrite attempt_eq. cbv zeta. apply IH. lia.
Qed.

(** Loop-invariant rule for the descent-direction loop. *)
Lemma retry_loop_inv (maxinner : Z)
      (I : Float -> Z -> Float -> event -> state -> Prop) :
  (forall desc n tol ev st,
      I desc n tol ev st -> fltb desc F0 = true -> n < 10 ->
      let tol' := if 0 <? n then fdiv tol F10 else tol in
      I (fst (fst (attempt maxinner tol' ev st))) (n + 1) tol'
        (snd (fst (attempt maxinner tol' ev st)))
        (snd (attempt maxinner tol' ev st))) ->
  forall fuel desc n tol ev st desc' ev' st',
    I desc n tol ev st ->
    retry_loop fuel maxinner desc n tol ev st = Some (desc', ev', st') ->
    exists n' tol', I desc' n' tol' ev' st' /\ (fltb desc' F0 && (n' <? 10)) = false.
Proof.
  intros Hstep0. induction fuel as [|fuel IH]; intros desc n tol ev st d' e' s' HI H;
    cbn [retry_loop] in H.
  - destruct (fltb desc F0 && (n <? 10)) eqn:E; [discriminate|].
    inversion H; subst. eauto.
  - destruct (fltb desc F0 && (n <? 10)) eqn:E.
    + apply andb_true_iff in E. destruct E as [E1 E2]. apply Z.ltb_lt in E2.
      pose proof (Hstep0 _ _ _ _ _ HI E1 E2) as Hstep. cbv zeta in Hstep, H.
      destruct (attempt maxinner (if 0 <? n then fdiv tol F10 else tol) ev st)
        as [[d1 e1] s1] eqn:EA.
      cbn [fst snd] in Hstep. exact (IH _ _ _ _ _ _ _ _ Hstep H).
    + inversion H; subst. eauto.
Qed.

(** The body of the outer loop always comes back. *)
Lemma outer_body_total (tol : Float) (maxinner : Z) (st : state) :
  exists o, outer_body tol maxinner st = Some o.
Proof.
  unfold outer_body. rewrite evaluate_eq.
  destruct (fltb (grad_max_abs_at st) tol); [eauto|].
  rewrite prepare_eq.
  match goal with |- context [retry_loop 10 ?m ?d ?n ?t ?e ?s] =>
    destruct (retry_loop_total m 10 d n t e s) as [[[d' e'] s'] Hr]; [simpl; lia|];
    rewrite Hr end.
  destruct (fltb d' F0); eauto.
Qed.

Lemma outer_body_eq (tol : Float) (maxinner : Z) (st : state) :
  outer_body tol maxinner st =
  if fltb (grad_max_abs_at st) tol then Some (Break (snd (evaluate st)))
  else match search maxinner st with
       | None => None
       | Some (desc, ev, s) =>
           if fltb desc F0 then Some (Return ev (cur_iter_id s) (inner_iter_sum s) s)
           else Some (Continue (accept ev s))
       end.
Proof.
  unfold outer_body, search, search_entry, search_event, search_tol.
  rewrite evaluate_eq. cbn [fst snd].
  destruct (fltb (grad_max_abs_at st) tol); [reflexivity|].
  destruct (prepare _ _) as [e s]. cbn [fst snd]. reflexivity.
Qed.

Lemma search_total (maxinner : Z) (st : state) :
  exists r, search maxinner st = Some r.
Proof. apply retry_loop_total. simpl. lia. Qed.

(** What the descent-direction loop leaves alone. *)
Lemma retry_loop_frame (maxinner : Z) fuel desc n tol ev (st : state) desc' ev' st' :
  retry_loop fuel maxinner desc n tol ev st = Some (desc', ev', st') ->
  x st' = x st /\ f st' = f st /\ cur_iter_id st' = cur_iter_id st /\
  update_norm st' = update_norm st /\ last st' = last st /\
  last_iter_deps st' = last_iter_deps st.
Proof.
  intros H.
  destruct (retry_loop_inv maxinner
              (fun _ _ _ _ s =>
                 x s = x st /\ f s = f st /\ cur_iter_id s = cur_iter_id st /\
                 update_norm s = update_norm st /\ last s = last st /\
                 last_iter_deps s = last_iter_deps st))
    with (3 := H) as (n' & tol' & HI & _).
  - intros d0 n0 t0 e0 s0 HI _ _. cbv zeta. rewrite attempt_eq. exact HI.
  - repeat split.
  - exact HI.
Qed.

(** ** The attempts of the descent-direction loop *)

Lemma Zsum_snoc (l : list Z) (a : Z) : Zsum (l ++ [a]) = Zsum l + a.
Proof. unfold Zsum. induction l as [|b l IH]; simpl; lia. Qed.

Lemma shrink_S (i : nat) (t : Float) : shrink (S i) t = fdiv (shrink i t) F10.
Proof. reflexivity. Qed.

Lemma since_app (seg tr : list (op Float)) : since tr (seg ++ tr) = seg.
Proof.
  unfold since. rewrite length_app.
  replace (length seg + length tr - length tr)%nat with (length seg) by lia.
  rewrite firstn_app, Nat.sub_diag, firstn_all. simpl. apply app_nil_r.
Qed.

Lemma attempts_snoc (maxinner : Z) (tol_k : Float) (ev : event) (s : state)
      (seg : list (op Float)) :
  attempts (attempt_ops maxinner tol_k ev s ++ seg) =
  attempts seg ++
  [mk_attempt_info tol_k
     (cg_inner_iter (cg_solve (get_hessian_product (f s)) (gradient (f s))
                               (direction s) tol_k F0 maxinner))
     (dot_product (gradient (f s))
        (cg_x (cg_solve (get_hessian_product (f s)) (gradient (f s))
                        (direction s) tol_k F0 maxinner)))].
Proof. reflexivity. Qed.

Lemma search_entry_trace (st : state) :
  trace (search_entry st) = entry_ops st ++ trace st.
Proof.
  unfold search_entry, entry_ops. rewrite prepare_eq, evaluate_eq. cbn [snd trace].
  rewrite app_assoc. reflexivity.
Qed.

Lemma attempts_entry (st : state) : attempts (entry_ops st) = [].
Proof. unfold entry_ops, prepare_ops, evaluate_ops. reflexivity. Qed.

(** The loop invariant of the descent-direction loop of the iteration run
    at [st], over the attempts recorded since the iteration began. *)
Lemma search_attempts (maxinner : Z) (st : state) desc ev s :
  search maxinner st = Some (desc, ev, s) ->
  exists seg,
    trace s = seg ++ trace st /\
    (Z.of_nat (length (attempts seg)) <= 10) /\
    map at_tol (attempts seg) =
      map (fun i => shrink i (search_tol st)) (seq 0 (length (attempts seg))) /\
    inner_iter_sum s = inner_iter_sum st + Zsum (map at_inner (attempts seg)) /\
    ((attempts seg = [] /\ desc = fneg F1) \/
     (exists A0 a, attempts seg = A0 ++ [a] /\ desc = at_desc a /\
                   Forall (fun b => fltb (at_desc b) F0 = true) A0)) /\
    (fltb desc F0 = false \/ length (attempts seg) = 10%nat).
Proof.
  intros H. unfold search in H.
  pose (I := fun (desc : Float) (n : Z) (tol : Float) (_ : event) (s : state) =>
    exists seg,
      trace s = seg ++ trace st /\
      n = Z.of_nat (length (attempts seg)) /\ n <= 10 /\
      map at_tol (attempts seg) =
        map (fun i => shrink i (search_tol st)) (seq 0 (length (attempts seg))) /\
      inner_iter_sum s = inner_iter_sum st + Zsum (map at_inner (attempts seg)) /\
      ((attempts seg = [] /\ desc = fneg F1 /\ tol = search_tol st) \/
       (exists A0 a, attempts seg = A0 ++ [a] /\ desc = at_desc a /\
                     tol = at_tol a /\
                     Forall (fun b => fltb (at_desc b) F0 = true) A0))).
  assert (Hstep : forall desc n tol ev st0,
             I desc n tol ev st0 -> fltb desc F0 = true -> n < 10 ->
             let tol' := if 0 <? n then fdiv tol F10 else tol in
             I (fst (fst (attempt maxinner tol' ev st0))) (n + 1) tol'
               (snd (fst (attempt maxinner tol' ev st0)))
               (snd (attempt maxinner tol' ev st0))).
  { clear H. intros d n t e s0 (seg & Htr & Hn & Hle & Htol & Hsum & Hlast) Hd Hlt tol'.
    rewrite attempt_eq. cbv zeta. cbn [fst snd].
    exists (attempt_ops maxinner tol' e s0 ++ seg).
    rewrite attempts_snoc.
    set (a := mk_attempt_info tol' _ _).
    assert (Ht' : tol' = shrink (length (attempts seg)) (search_tol st)).
    { subst tol'. destruct Hlast as [(HA & _ & Ht) | (A0 & a0 & HA & _ & Ht & _)].
      - rewrite HA in Hn. simpl in Hn. subst n. rewrite HA. simpl. exact Ht.
      - assert ((0 <? n) = true) as ->.
        { apply Z.ltb_lt. rewrite Hn, HA, length_app. simpl. lia. }
        rewrite Ht.
        assert (Ha0 : at_tol a0 = shrink (length A0) (search_tol st)).
        { rewrite HA in Htol. rewrite length_app, map_app in Htol. simpl in Htol.
          replace (length A0 + 1)%nat with (S (length A0)) in Htol by lia.
          rewrite seq_S, map_app in Htol. simpl in Htol.
          apply app_inj_tail in Htol. apply Htol. }
        rewrite Ha0, HA, length_app. simpl.
        replace (length A0 + 1)%nat with (S (length A0)) by lia. reflexivity. }
    repeat split.
    - cbn [trace]. rewrite Htr. rewrite app_assoc. reflexivity.
    - rewrite length_app. simpl. lia.
    - lia.
    - rewrite length_app, map_app. simpl.
      replace (length (attempts seg) + 1)%nat with (S (length (attempts seg))) by lia.
      rewrite seq_S, map_app. simpl. rewrite <- Htol, <- Ht'. reflexivity.
    - cbn [inner_iter_sum]. rewrite map_app. cbn [map]. rewrite Zsum_snoc, Hsum.
      subst a. cbn [at_inner]. lia.
    - right. exists (attempts seg), a. repeat split.
      destruct Hlast as [(HA & _) | (A0 & a0 & HA & Hd0 & _ & HF)].
      + rewrite HA. constructor.
      + rewrite HA. apply Forall_app. split; [exact HF|].
        constructor; [|constructor]. rewrite <- Hd0. exact Hd. }
  assert (H0 : I (fneg F1) 0 (search_tol st) (search_event st) (search_entry st)).
  { exists (entry_ops st). rewrite attempts_entry.
    split; [apply search_entry_trace|].
    split; [reflexivity|]. split; [lia|]. split; [reflexivity|].
    split; [cbn [map Zsum fold_right]; rewrite Z.add_0_r; reflexivity|].
    left. repeat split. }
  destruct (retry_loop_inv maxinner I Hstep _ _ _ _ _ _ _ _ _ H0 H)
    as (n' & tol' & (seg & Htr & Hn & Hle & Htol & Hsum & Hlast) & Hexit).
  exists seg. repeat split; try assumption.
  - lia.
  - destruct Hlast as [(HA & Hd & _) | (A0 & a0 & HA & Hd & _ & HF)].
    + left. auto.
    + right. exists A0, a0. auto.
  - apply andb_false_iff in Hexit. destruct Hexit as [Hd | Hn'].
    + left. exact Hd.
    + right. apply Z.ltb_ge in Hn'. lia.
Qed.

(** The calls of the descent-direction loop, and what it leaves of the
    state it was entered with. *)
Lemma search_calls (maxinner : Z) (st : state) desc ev s :
  search maxinner st = Some (desc, ev, s) ->
  exists seg,
    trace s = seg ++ trace (search_entry st) /\ forallb search_call seg = true.
Proof.
  intros H. unfold search in H.
  destruct (retry_loop_inv maxinner
              (fun _ _ _ _ s0 =>
                 exists seg, trace s0 = seg ++ trace (search_entry st) /\
                             forallb search_call seg = true))
    with (3 := H) as (n' & tol' & HI & _).
  - intros d n t e s0 (seg & Htr & Hall) _ _ tol'. rewrite attempt_eq. cbv zeta.
    cbn [fst snd trace]. exists (attempt_ops maxinner tol' e s0 ++ seg). split.
    + rewrite Htr, app_assoc. reflexivity.
    + rewrite forallb_app, Hall. reflexivity.
  - exists []. split; reflexivity.
  - exact HI.
Qed.

Lemma search_frame (maxinner : Z) (st : state) desc ev s :
  search maxinner st = Some (desc, ev, s) ->
  x s = x st /\
  f s = set_gradient (update_x (f st) (x st) true)
                     (map fneg (gradient (update_x (f st) (x st) true))) /\
  cur_iter_id s = cur_iter_id st + 1 /\
  update_norm s = update_norm st /\ last s = last st /\
  last_iter_deps s = last_iter_deps st.
Proof.
  intros H. apply retry_loop_frame in H.
  destruct H as (Hx & Hf & Hc & Hu & Hl & Hd).
  rewrite Hx, Hf, Hc, Hu, Hl, Hd. repeat split.
Qed.

Lemma search_trace (maxinner : Z) (st : state) desc ev s :
  search maxinner st = Some (desc, ev, s) ->
  exists seg,
    trace s = (seg ++ entry_ops st) ++ trace st /\ forallb search_call seg = true.
Proof.
  intros H. apply search_calls in H. destruct H as (seg & Htr & Hall).
  exists seg. rewrite Htr, search_entry_trace, app_assoc. auto.
Qed.

(** The event the loop hands on is the handle of the newest call. *)
Lemma search_last_event (maxinner : Z) (st : state) desc ev s :
  search maxinner st = Some (desc, ev, s) ->
  option_map op_event (hd_error (trace s)) = Some (Some ev).
Proof.
  intros H. unfold search in H.
  destruct (retry_loop_inv maxinner
              (fun _ _ _ e s0 => option_map op_event (hd_error (trace s0)) = Some (Some e)))
    with (3 := H) as (n' & tol' & HI & _).
  - intros d n t e s0 _ _ _ tol'. rewrite attempt_eq. reflexivity.
  - reflexivity.
  - exact HI.
Qed.

Lemma search_call_kinds (seg : list (op Float)) :
  forallb search_call seg = true ->
  existsb is_backtracking seg = false /\ existsb is_copy seg = false /\
  existsb (writes_buf X) seg = false /\ existsb (writes_buf Gradient) seg = false.
Proof.
  induction seg as [|o seg IH]; intros H; [repeat split|].
  cbn [forallb] in H. apply andb_true_iff in H. destruct H as [Ho Hs].
  destruct (IH Hs) as (H1 & H2 & H3 & H4).
  cbn [existsb]. rewrite H1, H2, H3, H4, !orb_false_r.
  unfold search_call in Ho. unfold is_backtracking, is_copy.
  destruct (op_call o); try discriminate;
    apply andb_true_iff in Ho; destruct Ho as [Hx Hg];
    apply negb_true_iff in Hx; apply negb_true_iff in Hg;
    rewrite Hx, Hg; repeat split.
Qed.

Lemma map_seq_nth {A B : Type} (g : A -> B) (h : nat -> B) (l : list A) :
  forall k i a,
    map g l = map h (seq k (length l)) ->
    nth_error l i = Some a -> g a = h (k + i)%nat.
Proof.
  induction l as [|b l IH]; intros k i a Hm Hn.
  - destruct i; discriminate.
  - simpl in Hm. inversion Hm as [[Hb Hl]]. destruct i as [|i]; simpl in Hn.
    + inversion Hn; subst. rewrite Nat.add_0_r. exact Hb.
    + replace (k + S i)%nat with (S k + i)%nat by lia. eapply IH; eauto.
Qed.

Lemma attempts_accept (ev : event) (s : state) (seg : list (op Float)) :
  attempts (accept_ops ev s ++ seg) = attempts seg.
Proof. reflexivity. Qed.

Lemma forallb_impl {A : Type} (p q : A -> bool) (l : list A) :
  (forall a, p a = true -> q a = true) -> forallb p l = true -> forallb q l = true.
Proof.
  intros Hpq. induction l as [|a l IH]; simpl; [reflexivity|].
  intros H. apply andb_true_iff in H. destruct H as [Ha Hl].
  rewrite (Hpq _ Ha), (IH Hl). reflexivity.
Qed.

Lemma find_app_none {A : Type} (p : A -> bool) (l l' : list A) :
  existsb p l = false -> find p (l ++ l') = find p l'.
Proof.
  induction l as [|a l IH]; simpl; [reflexivity|].
  intros H. apply orb_false_iff in H. destruct H as [Ha Hl]. rewrite Ha. auto.
Qed.

Lemma search_call_x (o : op Float) : search_call o = true -> x_written_by_copy o = true.
Proof.
  unfold search_call, x_written_by_copy.
  destruct (op_call o); try discriminate; intros H;
    apply andb_true_iff in H; destruct H as [Hx _];
    apply negb_true_iff in Hx; rewrite Hx; reflexivity.
Qed.

(** The descent-direction loop does not look at [update_norm]. *)
Lemma retry_loop_update_norm (maxinner : Z) (u : Float) (fuel : nat) :
  forall desc n tol ev (st : state),
    retry_loop fuel maxinner desc n tol ev (set_update_norm st u)
    = option_map (fun r => (fst r, set_update_norm (snd r) u))
                 (retry_loop fuel maxinner desc n tol ev st).
Proof.
  induction fuel as [|fuel IH]; intros desc n tol ev st; cbn [retry_loop].
  - destruct (fltb desc F0 && (n <? 10)); reflexivity.
  - destruct (fltb desc F0 && (n <? 10)); [|reflexivity].
    cbv zeta. rewrite !attempt_eq. cbv beta iota zeta.
    match goal with |- _ = option_map _ (retry_loop _ _ _ _ _ _ ?s) =>
      rewrite <- (IH _ _ _ _ s) end.
    reflexivity.
Qed.

(** The calls an iteration adds to the trace. *)
Lemma outer_body_trace (tol : Float) (maxinner : Z) (st : state) out :
  outer_body tol maxinner st = Some out ->
  exists seg,
    trace (state_of out) = seg ++ trace st /\
    forallb x_written_by_copy seg = true /\
    existsb is_copy seg = is_continue (Some out).
Proof.
  rewrite outer_body_eq. destruct (fltb (grad_max_abs_at st) tol).
  - intros H. apply Some_eq in H. subst out. exists (evaluate_ops st).
    cbn [state_of]. rewrite evaluate_eq. cbn [snd trace]. repeat split.
  - destruct (search maxinner st) as [[[d e] s]|] eqn:E; [|discriminate].
    destruct (search_trace _ _ _ _ _ E) as (seg & Htr & Hall).
    destruct (search_call_kinds _ Hall) as (_ & Hcp & _).
    pose proof (forallb_impl _ _ _ search_call_x Hall) as Hx.
    assert (He : forallb x_written_by_copy (entry_ops st) = true /\
                 existsb is_copy (entry_ops st) = false).
    { unfold entry_ops, prepare_ops, evaluate_ops. split; reflexivity. }
    destruct He as [He1 He2].
    destruct (fltb d F0); intros H; apply Some_eq in H; subst out; cbn [state_of].
    + exists (seg ++ entry_ops st). split; [exact Htr|].
      rewrite forallb_app, existsb_app, Hx, Hcp, He1, He2. split; reflexivity.
    + exists (accept_ops e s ++ seg ++ entry_ops st). rewrite accept_eq. cbv zeta.
      cbn [trace]. rewrite Htr. split; [rewrite !app_assoc; reflexivity|].
      rewrite !forallb_app, Hx, He1. split; reflexivity.
Qed.

(** ** Ordering of the calls of an iteration *)

Ltac ordered_tac :=
  repeat (apply andb_true_iff; split);
  first [reflexivity | assumption | covered_tac].

Lemma search_ordered (maxinner : Z) (st : state) desc ev s :
  ordered (trace (search_entry st)) = true ->
  commits_follow_line_search (trace (search_entry st)) = true ->
  covered (trace (search_entry st)) [search_event st] X = true ->
  covered (trace (search_entry st)) [search_event st] Gradient = true ->
  covered (trace (search_entry st)) [search_event st] Direction = true ->
  search maxinner st = Some (desc, ev, s) ->
  ordered (trace s) = true /\
  commits_follow_line_search (trace s) = true /\
  covered (trace s) [ev] X = true /\
  covered (trace s) [ev] Gradient = true /\
  covered (trace s) [ev] Direction = true.
Proof.
  intros Ho Hc Hx Hg Hd H. unfold search in H.
  destruct (retry_loop_inv maxinner
              (fun _ _ _ e s0 =>
                 ordered (trace s0) = true /\
                 commits_follow_line_search (trace s0) = true /\
                 covered (trace s0) [e] X = true /\
                 covered (trace s0) [e] Gradient = true /\
                 covered (trace s0) [e] Direction = true))
    with (3 := H) as (n' & tol' & HI & _); [| repeat split; assumption | exact HI].
  clear. intros d n t e s0 (Ho & Hc & Hx & Hg & Hd) _ _ tol'.
  rewrite attempt_eq. cbv zeta. cbn [fst snd trace]. unfold attempt_ops.
  cbn [app ordered commits_follow_line_search forallb op_reads op_deps is_copy op_call].
  repeat split; ordered_tac.
Qed.

Lemma outer_body_ordered (tol : Float) (maxinner : Z) (st : state) out :
  head_ordered st ->
  outer_body tol maxinner st = Some out ->
  ordered (trace (state_of out)) = true /\
  commits_follow_line_search (trace (state_of out)) = true /\
  (is_continue (Some out) = true -> head_ordered (state_of out)).
Proof.
  intros (Ho & Hc & Hx) H. rewrite outer_body_eq in H.
  assert (He : ordered (trace (snd (evaluate st))) = true /\
               commits_follow_line_search (trace (snd (evaluate st))) = true).
  { rewrite evaluate_eq. cbn [snd trace]. unfold evaluate_ops.
    cbn [app ordered commits_follow_line_search forallb op_reads op_deps is_copy op_call].
    split; ordered_tac. }
  destruct (fltb (grad_max_abs_at st) tol).
  - apply Some_eq in H. subst out. cbn [state_of]. destruct He.
    repeat split; auto. discriminate.
  - destruct (search maxinner st) as [[[d e] s]|] eqn:E; [|discriminate].
    destruct (search_ordered maxinner st d e s) as (Ho' & Hc' & Hx' & Hg' & Hd');
      [ | | | | | exact E | ].
    1-5: unfold search_entry, search_event; rewrite prepare_eq, evaluate_eq;
      cbn [fst snd trace]; unfold prepare_ops, evaluate_ops;
      cbn [app ordered commits_follow_line_search forallb op_reads op_deps is_copy
               op_call length trace];
      ordered_tac.
    destruct (fltb d F0); apply Some_eq in H; subst out; cbn [state_of].
    + repeat split; auto. discriminate.
    + rewrite accept_eq. cbv zeta. unfold head_ordered. cbn [trace last_iter_deps].
      unfold accept_ops.
      cbn [app ordered commits_follow_line_search forallb op_reads op_deps is_copy
               op_call].
      repeat split; ordered_tac.
Qed.

(** ** The outer loop *)

Lemma outer_body_counts (tol : Float) (maxinner : Z) (st : state) out :
  outer_body tol maxinner st = Some out ->
  cur_iter_id (state_of out) = cur_iter_id st + 1.
Proof.
  rewrite outer_body_eq.
  destruct (fltb (grad_max_abs_at st) tol).
  - intros H. apply Some_eq in H. subst out. cbn [state_of].
    rewrite evaluate_eq. reflexivity.
  - destruct (search maxinner st) as [[[d e] s]|] eqn:E; [|discriminate].
    apply search_frame in E. destruct E as (_ & _ & Hc & _).
    destruct (fltb d F0); intros H; apply Some_eq in H; subst out; cbn [state_of].
    + exact Hc.
    + rewrite accept_eq. cbv zeta. cbn [cur_iter_id]. exact Hc.
Qed.

(** The outer loop comes back whenever its fuel covers the iterations left
    before [cur_iter_id] reaches [maxiter]. *)
Lemma outer_loop_total (tol : Float) (maxiter maxinner : Z) (fuel : nat) :
  forall st : state,
    maxiter - cur_iter_id st <= Z.of_nat fuel ->
    exists r, outer_loop fuel tol maxiter maxinner st = Some r.
Proof.
  induction fuel as [|fuel IH]; intros st Hf; cbn [outer_loop].
  - destruct (cur_iter_id st <? maxiter) eqn:E; [apply Z.ltb_lt in E; lia | eauto].
  - destruct (cur_iter_id st <? maxiter) eqn:E; [|eauto].
    destruct (outer_body_total tol maxinner st) as [o Ho]. rewrite Ho.
    destruct o as [s'|e o i s'|s']; eauto.
    apply IH. apply outer_body_counts in Ho. cbn [state_of] in Ho. lia.
Qed.

Lemma newton_cg_total (f0 : objective Float Hidden) x0 tol maxiter maxinner deps alloc :
  exists r, newton_cg f0 x0 tol maxiter maxinner deps alloc = Some r.
Proof. apply outer_loop_total. simpl. lia. Qed.

(** Every way out of the outer loop is one of the three exits, taken at a
    loop head reached through accepted steps. *)
Lemma outer_loop_exit (tol : Float) (maxiter maxinner : Z) (fuel : nat) :
  forall (st0 st : state) r,
    reaches tol maxiter maxinner st0 st ->
    outer_loop fuel tol maxiter maxinner st = Some r ->
    exists st_h, reaches tol maxiter maxinner st0 st_h /\
                 exit_at tol maxiter maxinner st_h r.
Proof.
  induction fuel as [|fuel IH]; intros st0 st r Hr H; cbn [outer_loop] in H.
  - destruct (cur_iter_id st <? maxiter) eqn:E; [discriminate|].
    inversion H; subst. exists st. split; [exact Hr | apply exit_cap; auto].
  - destruct (cur_iter_id st <? maxiter) eqn:E.
    + destruct (outer_body tol maxinner st) as [[s'|e o i s'|s']|] eqn:Ho;
        [| | |discriminate].
      * inversion H; subst. exists st. split; [exact Hr|].
        eapply exit_converged; eauto.
      * inversion H; subst. exists st. split; [exact Hr|].
        eapply exit_descent_failure; eauto.
      * eapply IH; [|exact H]. eapply reaches_step; eauto.
    + inversion H; subst. exists st. split; [exact Hr | apply exit_cap; auto].
Qed.

(** Invariants of accepted steps hold at every loop head that is reached. *)
Lemma reaches_inv (tol : Float) (maxiter maxinner : Z) (P : state -> Prop) (st0 : state) :
  P st0 ->
  (forall st st', P st -> outer_body tol maxinner st = Some (Continue st') -> P st') ->
  forall st, reaches tol maxiter maxinner st0 st -> P st.
Proof.
  intros H0 Hstep st Hr. induction Hr; eauto.
Qed.

End Phases.

(** * The claims *)

Section Claims.

Context {Float Hidden : Type}.
Context {FO : FloatOps Float}.
Context {BF : base_function Float Hidden}.
Context {PR : Primitives Float Hidden}.

Local Abbreviation state := (@state Float Hidden).
Local Abbreviation obj := (objective Float Hidden).

(** C9: with [maxiter <= 0] the outer loop body never runs: the call
    returns the default-constructed event and both counters at 0, leaves
    [x] and the objective as they were, and has made no call at all (so no
    [update_x], [get_gradient] or [get_value]). *)
Theorem newton_cg_no_iteration (f0 : obj) x0 tol maxiter maxinner deps alloc :
  maxiter <= 0 ->
  exists r,
    newton_cg f0 x0 tol maxiter maxinner deps alloc = Some r /\
    res_event r = ev_default /\ res_outer_iters r = 0 /\ res_inner_iters r = 0 /\
    x (res_state r) = x0 /\ f (res_state r) = f0 /\ trace (res_state r) = [].
Proof.
  intros Hm. unfold newton_cg.
  replace (Z.to_nat maxiter) with 0%nat by lia. cbn [outer_loop].
  assert ((cur_iter_id (entry f0 x0 tol deps alloc) <? maxiter) = false) as ->.
  { apply Z.ltb_ge. simpl. lia. }
  eexists. split; [reflexivity|]. repeat split.
Qed.

(** C5: when [maxiter >= 1] and the largest absolute component of the
    gradient at the initial point is below [tol], the call returns at the
    first convergence test: 1 outer iteration is reported (the counter is
    incremented before the test), no inner iteration, [x] is unchanged, and
    neither [cg_solve] nor [backtracking] has been called. *)
Theorem newton_cg_converged_at_start (f0 : obj) x0 tol maxiter maxinner deps alloc :
  0 < maxiter ->
  fltb (max_abs (gradient (update_x f0 x0 true))) tol = true ->
  exists r,
    newton_cg f0 x0 tol maxiter maxinner deps alloc = Some r /\
    res_outer_iters r = 1 /\ res_inner_iters r = 0 /\
    res_event r = ev_default /\ x (res_state r) = x0 /\
    existsb is_cg_solve (trace (res_state r)) = false /\
    existsb is_backtracking (trace (res_state r)) = false /\
    existsb is_copy (trace (res_state r)) = false.
Proof.
  intros Hm Hc. unfold newton_cg.
  destruct (Z.to_nat maxiter) as [|k] eqn:Ek; [lia|]. cbn [outer_loop].
  assert ((cur_iter_id (entry f0 x0 tol deps alloc) <? maxiter) = true) as ->.
  { apply Z.ltb_lt. simpl. lia. }
  rewrite outer_body_eq.
  replace (grad_max_abs_at (entry f0 x0 tol deps alloc))
    with (max_abs (gradient (update_x f0 x0 true))) by reflexivity.
  rewrite Hc. eexists. split; [reflexivity|]. repeat split.
Qed.



(** What the descent-direction loop of the code does: in an iteration
    whose convergence test fails,
    [cg_solve] is attempted at least once and at most ten times; attempt
    number [i] (from 0) is given the tolerance [tol_k / 10^i]; every attempt
    that is followed by another one had [desc < 0]; the inner iterations of
    all attempts are added to [inner_iter_sum].  After the last attempt the
    iteration goes on to the line search when its [desc] is not below 0
    (zero included), and otherwise, ten attempts having been made, the call
    returns at once with the event of the last [dot_product] and the two
    counters. *)
Theorem descent_search_retries (tol : Float) (maxinner : Z) (st : state) :
  fltb (fneg F1) F0 = true ->
  fltb (max_abs (gradient (update_x (f st) (x st) true))) tol = false ->
  exists out A0 a,
    outer_body tol maxinner st = Some out /\
    attempts (since (trace st) (trace (state_of out))) = A0 ++ [a] /\
    (length (A0 ++ [a]) <= 10)%nat /\
    Forall (fun b => fltb (at_desc b) F0 = true) A0 /\
    map at_tol (A0 ++ [a])
    = map (fun i => shrink i (fmin (fsqrt (l1_norm (gradient (update_x (f st) (x st) true))))
                                   Fhalf))
          (seq 0 (length (A0 ++ [a]))) /\
    inner_iter_sum (state_of out)
    = inner_iter_sum st + Zsum (map at_inner (A0 ++ [a])) /\
    match out with
    | Break _ => False
    | Continue st' =>
        fltb (at_desc a) F0 = false /\
        existsb is_backtracking (since (trace st) (trace st')) = true
    | Return ev outer inner st' =>
        fltb (at_desc a) F0 = true /\ length (A0 ++ [a]) = 10%nat /\
        existsb is_backtracking (since (trace st) (trace st')) = false /\
        outer = cur_iter_id st + 1 /\ inner = inner_iter_sum st' /\
        option_map op_event (hd_error (trace st')) = Some (Some ev)
    end.
Proof.
  intros Hneg Hconv. rewrite outer_body_eq.
  replace (grad_max_abs_at st)
    with (max_abs (gradient (update_x (f st) (x st) true))) by reflexivity.
  rewrite Hconv.
  destruct (search_total maxinner st) as [[[d e] s] E]. rewrite E.
  destruct (search_frame _ _ _ _ _ E) as (Hx & _ & Hc & _).
  destruct (search_attempts _ _ _ _ _ E)
    as (seg & Htr & Hle & Htol & Hsum & Hlast & Hexit).
  destruct (search_trace _ _ _ _ _ E) as (seg' & Htr' & Hall).
  assert (Hseg : seg = seg' ++ entry_ops st).
  { rewrite Htr in Htr'. apply app_inv_tail in Htr'. exact Htr'. }
  destruct (search_call_kinds _ Hall) as (Hb & _).
  destruct Hlast as [(HA & Hd) | (A0 & a & HA & Hd & HF)].
  { exfalso. subst d. rewrite Hneg in Hexit. rewrite HA in Hexit.
    destruct Hexit; discriminate. }
  assert (Hlen10 : (length (A0 ++ [a]) <= 10)%nat) by (rewrite <- HA; lia).
  destruct (fltb d F0) eqn:Ed.
  - exists (Return e (cur_iter_id s) (inner_iter_sum s) s), A0, a.
    cbn [state_of]. rewrite Htr, since_app, <- HA.
    destruct Hexit as [Hd' | Hlen]; [congruence|].
    split; [reflexivity|]. split; [reflexivity|]. split; [rewrite HA; exact Hlen10|].
    split; [exact HF|]. split; [exact Htol|]. split; [exact Hsum|].
    split; [rewrite <- Hd; exact Ed|]. split; [exact Hlen|].
    split; [rewrite Hseg, existsb_app, Hb; reflexivity|].
    split; [exact Hc|]. split; [reflexivity|].
    rewrite <- Htr. exact (search_last_event _ _ _ _ _ E).
  - exists (Continue (accept e s)), A0, a.
    cbn [state_of]. rewrite accept_eq. cbv zeta. cbn [trace inner_iter_sum].
    rewrite Htr, app_assoc, since_app, attempts_accept, <- HA.
    split; [reflexivity|]. split; [reflexivity|]. split; [rewrite HA; exact Hlen10|].
    split; [exact HF|]. split; [exact Htol|]. split; [exact Hsum|].
    split; [rewrite <- Hd; exact Ed|]. reflexivity.
Qed.

(** The tolerances of the attempts of an iteration, whichever way it ends. *)
Lemma iteration_tolerances (tol : Float) (maxinner : Z) (st : state) out :
  outer_body tol maxinner st = Some out ->
  map at_tol (attempts (since (trace st) (trace (state_of out))))
  = map (fun i => shrink i (search_tol st))
        (seq 0 (length (attempts (since (trace st) (trace (state_of out)))))).
Proof.
  rewrite outer_body_eq. destruct (fltb (grad_max_abs_at st) tol).
  - intros H. apply Some_eq in H. subst out. cbn [state_of].
    rewrite evaluate_eq. cbn [snd trace]. rewrite since_app. reflexivity.
  - destruct (search maxinner st) as [[[d e] s]|] eqn:E; [|discriminate].
    destruct (search_attempts _ _ _ _ _ E) as (seg & Htr & _ & Htol & _).
    destruct (fltb d F0); intros H; apply Some_eq in H; subst out; cbn [state_of].
    + rewrite Htr, since_app. exact Htol.
    + rewrite accept_eq. cbv zeta. cbn [trace].
      rewrite Htr, app_assoc, since_app, attempts_accept. exact Htol.
Qed.

(** C4: in every iteration the first attempt is given
    [min(sqrt(grad_norm), 0.5)], computed from the L1 norm of the gradient
    at the current iterate, and each later attempt a tenth of the tolerance
    of the attempt before it; given that a square root and 0.5 are not below
    zero and that a tenth of a value that is not below zero is neither below
    zero nor above the value, the tolerance never increases from one attempt
    to the next. *)
Theorem inner_tolerance_schedule (tol : Float) (maxinner : Z) (st : state) out :
  (forall g, fltb (fsqrt g) F0 = false) ->
  fltb Fhalf F0 = false ->
  (forall t, fltb t F0 = false ->
             fltb (fdiv t F10) F0 = false /\ fltb t (fdiv t F10) = false) ->
  outer_body tol maxinner st = Some out ->
  (forall i a,
      nth_error (attempts (since (trace st) (trace (state_of out)))) i = Some a ->
      at_tol a
      = shrink i (fmin (fsqrt (l1_norm (gradient (update_x (f st) (x st) true)))) Fhalf)) /\
  (forall i a b,
      nth_error (attempts (since (trace st) (trace (state_of out)))) i = Some a ->
      nth_error (attempts (since (trace st) (trace (state_of out)))) (S i) = Some b ->
      at_tol b = fdiv (at_tol a) F10 /\ fltb (at_tol a) (at_tol b) = false).
Proof.
  intros Hsqrt Hhalf Hdiv H.
  pose proof (iteration_tolerances _ _ _ _ H) as Htol.
  set (A := attempts (since (trace st) (trace (state_of out)))) in *.
  assert (Hnth : forall i a, nth_error A i = Some a -> at_tol a = shrink i (search_tol st)).
  { intros i a Ha. exact (map_seq_nth at_tol _ A 0%nat i a Htol Ha). }
  assert (Hpos : forall i, fltb (shrink i (search_tol st)) F0 = false).
  { induction i as [|i IH].
    - cbn [shrink Nat.iter nat_rect]. unfold search_tol, fmin.
      destruct (fltb Fhalf (fsqrt (grad_norm_at st))); [exact Hhalf | apply Hsqrt].
    - rewrite shrink_S. apply Hdiv. exact IH. }
  split; [exact Hnth|].
  intros i a b Ha Hb. rewrite (Hnth _ _ Ha), (Hnth _ _ Hb), shrink_S.
  split; [reflexivity|]. apply Hdiv. apply Hpos.
Qed.

(** An iteration run with another value in [update_norm] ends the same
    way, with the same state up to that variable. *)
Lemma outer_body_update_norm (tol : Float) (maxinner : Z) (st : state) (u : Float) :
  outer_body tol maxinner (set_update_norm st u)
  = option_map (outcome_norm u) (outer_body tol maxinner st).
Proof.
  rewrite !outer_body_eq.
  replace (grad_max_abs_at (set_update_norm st u)) with (grad_max_abs_at st)
    by reflexivity.
  destruct (fltb (grad_max_abs_at st) tol); [reflexivity|].
  unfold search.
  replace (search_entry (set_update_norm st u))
    with (set_update_norm (search_entry st) u) by reflexivity.
  replace (search_tol (set_update_norm st u)) with (search_tol st) by reflexivity.
  replace (search_event (set_update_norm st u)) with (search_event st) by reflexivity.
  rewrite retry_loop_update_norm.
  destruct (retry_loop 10 maxinner (fneg F1) 0 (search_tol st) (search_event st)
                       (search_entry st)) as [[[d e] s]|]; [|reflexivity].
  cbn [option_map fst snd]. destruct (fltb d F0); reflexivity.
Qed.

(** C6: an accepted step runs [backtracking] from the iterate the iteration
    began with, along the direction the search left, with initial step 1,
    constant 1e-4 and [x0_initialized] set; the update norm it then computes
    is the square root of [dot_product(direction, direction)] times the
    returned step length.  The update norm is never read: a call started
    with any other value in it returns the same tuple and the same state up
    to that variable. *)
Theorem accepted_step_update_norm (tol : Float) (maxiter maxinner : Z) (st : state) :
  (forall st',
      outer_body tol maxinner st = Some (Continue st') ->
      exists desc ev s,
        search maxinner st = Some (desc, ev, s) /\
        In (mk_op (c_backtracking F1 F1e_4 true
                     (ls_alpha (backtracking (f s) (x st) (direction s) F1 F1e_4 true)))
                  [X; Direction] [Buffer2; Gradient] [ev] None)
           (since (trace st) (trace st')) /\
        update_norm st'
        = fmul (fsqrt (dot_product (direction s) (direction s)))
               (ls_alpha (backtracking (f s) (x st) (direction s) F1 F1e_4 true))) /\
  (forall fuel u,
      option_map forget_norm (outer_loop fuel tol maxiter maxinner (set_update_norm st u))
      = option_map forget_norm (outer_loop fuel tol maxiter maxinner st)).
Proof.
  split.
  - intros st' H. rewrite outer_body_eq in H.
    destruct (fltb (grad_max_abs_at st) tol); [discriminate|].
    destruct (search maxinner st) as [[[d e] s]|] eqn:E; [|discriminate].
    destruct (fltb d F0); [discriminate|].
    apply Some_eq, Continue_eq in H. subst st'.
    destruct (search_frame _ _ _ _ _ E) as (Hx & _).
    destruct (search_attempts _ _ _ _ _ E) as (seg & Htr & _).
    exists d, e, s. split; [reflexivity|].
    rewrite accept_eq. cbv zeta. cbn [trace update_norm].
    rewrite Htr, app_assoc, since_app, <- Hx. split; [|reflexivity].
    apply in_or_app. left. unfold accept_ops. simpl. auto.
  - intros [|fuel] u; cbn [outer_loop];
      replace (cur_iter_id (set_update_norm st u)) with (cur_iter_id st) by reflexivity.
    + destruct (cur_iter_id st <? maxiter); reflexivity.
    + destruct (cur_iter_id st <? maxiter); [|reflexivity].
      rewrite outer_body_update_norm.
      destruct (outer_body tol maxinner st) as [[s'|e o i s'|s']|]; reflexivity.
Qed.

(** C7: an iteration that ends in the convergence [break] or in the return
    of the failed search leaves [x] as it found it; an accepted step sets
    [x] to the point the line search, run from the [x] the iteration began
    with, wrote to [buffer2]; the only calls of an iteration that write [x]
    are [copy] calls, and there is one exactly when the step is accepted.
    Over a whole call, every call of the trace that writes [x] is a [copy],
    the [x] returned is the one at the loop head where the call left the
    loop, and it is the initial [x0] when no [copy] was issued. *)
Theorem iterate_written_by_commit_only (tol : Float) (maxiter maxinner : Z) :
  (forall (st : state) out,
      outer_body tol maxinner st = Some out ->
      forallb x_written_by_copy (since (trace st) (trace (state_of out))) = true /\
      existsb is_copy (since (trace st) (trace (state_of out))) = is_continue (Some out) /\
      match out with
      | Break st' | Return _ _ _ st' => x st' = x st
      | Continue st' =>
          exists desc ev s,
            search maxinner st = Some (desc, ev, s) /\ x s = x st /\
            x st' = ls_result_buf (backtracking (f s) (x st) (direction s) F1 F1e_4 true)
      end) /\
  (forall (f0 : obj) x0 deps alloc r,
      newton_cg f0 x0 tol maxiter maxinner deps alloc = Some r ->
      forallb x_written_by_copy (trace (res_state r)) = true /\
      (existsb is_copy (trace (res_state r)) = false -> x (res_state r) = x0) /\
      exists st_h,
        reaches tol maxiter maxinner (entry f0 x0 tol deps alloc) st_h /\
        exit_at tol maxiter maxinner st_h r /\
        x (res_state r) = x st_h).
Proof.
  assert (Hbody : forall (st : state) out,
      outer_body tol maxinner st = Some out ->
      match out with
      | Break st' | Return _ _ _ st' => x st' = x st
      | Continue st' =>
          exists desc ev s,
            search maxinner st = Some (desc, ev, s) /\ x s = x st /\
            x st' = ls_result_buf (backtracking (f s) (x st) (direction s) F1 F1e_4 true)
      end).
  { intros st out H. rewrite outer_body_eq in H.
    destruct (fltb (grad_max_abs_at st) tol).
    - apply Some_eq in H. subst out. rewrite evaluate_eq. reflexivity.
    - destruct (search maxinner st) as [[[d e] s]|] eqn:E; [|discriminate].
      destruct (search_frame _ _ _ _ _ E) as (Hx & _).
      destruct (fltb d F0); apply Some_eq in H; subst out.
      + exact Hx.
      + exists d, e, s. split; [reflexivity|]. split; [exact Hx|].
        rewrite accept_eq. cbv zeta. cbn [x]. rewrite Hx. reflexivity. }
  split.
  - intros st out H. destruct (outer_body_trace _ _ _ _ H) as (seg & Htr & Hx & Hc).
    rewrite Htr, since_app.
    split; [exact Hx|]. split; [exact Hc|]. exact (Hbody _ _ H).
  - intros f0 x0 deps alloc r H. unfold newton_cg in H.
    set (st0 := entry f0 x0 tol deps alloc) in *.
    destruct (outer_loop_exit _ _ _ _ st0 st0 r (reaches_refl _ _ _ _) H)
      as (st_h & Hr & He).
    assert (HP : forallb x_written_by_copy (trace st_h) = true /\
                 (existsb is_copy (trace st_h) = false -> x st_h = x0)).
    { apply (reaches_inv tol maxiter maxinner
               (fun s => forallb x_written_by_copy (trace s) = true /\
                         (existsb is_copy (trace s) = false -> x s = x0)) st0);
        [split; reflexivity | | exact Hr].
      intros s s' (H1 & H2) Hb.
      destruct (outer_body_trace _ _ _ _ Hb) as (seg & Htr & Hx & Hc).
      cbn [state_of] in Htr. rewrite Htr, forallb_app, existsb_app, Hx, H1, Hc.
      split; [reflexivity | discriminate]. }
    destruct HP as (H1 & H2).
    assert (Hout : forall out, outer_body tol maxinner st_h = Some out ->
                     is_continue (Some out) = false ->
                     forallb x_written_by_copy (trace (state_of out)) = true /\
                     (existsb is_copy (trace (state_of out)) = false ->
                      x (state_of out) = x0) /\
                     x (state_of out) = x st_h).
    { intros out Hb Hk.
      destruct (outer_body_trace _ _ _ _ Hb) as (seg & Htr & Hx & Hc).
      pose proof (Hbody _ _ Hb) as Hxx.
      assert (Hxs : x (state_of out) = x st_h).
      { destruct out; [exact Hxx | exact Hxx | discriminate]. }
      rewrite Htr, forallb_app, existsb_app, Hx, H1, Hc, Hk, Hxs. auto. }
    destruct He as [Hc Hres | st' Hc Hb Hres | ev o i st' Hc Hb Hres]; subst r.
    + split; [exact H1|]. split; [exact H2|]. exists st_h. auto using exit_cap.
    + destruct (Hout _ Hb eq_refl) as (G1 & G2 & G3). cbn [state_of] in *.
      split; [exact G1|]. split; [exact G2|]. exists st_h.
      split; [exact Hr|]. split; [|exact G3]. eapply exit_converged; eauto.
    + destruct (Hout _ Hb eq_refl) as (G1 & G2 & G3). cbn [state_of] in *.
      split; [exact G1|]. split; [exact G2|]. exists st_h.
      split; [exact Hr|]. split; [|exact G3]. eapply exit_descent_failure; eauto.
Qed.

(** C10 (as the code has it): an iteration that does not converge
    overwrites the gradient buffer of the objective with the negated
    gradient and never writes it back itself.  The search runs on the
    negated buffer and leaves it: when the search is over the buffer holds
    the negated gradient and the last call that wrote it is the
    [element_wise] negation; that is the state of the objective returned
    from a failed search, and the state in which the objective is handed to
    the line search of an accepted step.  After an accepted step the
    objective is what the line search left of it, the driver writing
    nothing afterwards.  A converged iteration leaves the gradient as
    [update_x] computed it. *)
Theorem gradient_left_negated (tol : Float) (maxinner : Z) (st : state) out :
  outer_body tol maxinner st = Some out ->
  match out with
  | Break st' => f st' = update_x (f st) (x st) true
  | Return _ _ _ st' =>
      gradient (f st') = map fneg (gradient (update_x (f st) (x st) true)) /\
      hidden (f st') = hidden (update_x (f st) (x st) true) /\
      option_map op_call (last_writer Gradient (trace st')) = Some c_element_wise_minus
  | Continue st' =>
      exists desc ev s,
        search maxinner st = Some (desc, ev, s) /\
        gradient (f s) = map fneg (gradient (update_x (f st) (x st) true)) /\
        hidden (f s) = hidden (update_x (f st) (x st) true) /\
        option_map op_call (last_writer Gradient (trace s)) = Some c_element_wise_minus /\
        f st' = ls_f (backtracking (f s) (x st) (direction s) F1 F1e_4 true) /\
        option_map is_backtracking (last_writer Gradient (trace st')) = Some true
  end.
Proof.
  intros H. rewrite outer_body_eq in H.
  destruct (fltb (grad_max_abs_at st) tol).
  - apply Some_eq in H. subst out. rewrite evaluate_eq. reflexivity.
  - destruct (search maxinner st) as [[[d e] s]|] eqn:E; [|discriminate].
    destruct (search_frame _ _ _ _ _ E) as (Hx & Hf & _).
    destruct (search_trace _ _ _ _ _ E) as (seg & Htr & Hall).
    destruct (search_call_kinds _ Hall) as (_ & _ & _ & Hg).
    assert (Hw : option_map op_call (last_writer Gradient (trace s))
                 = Some c_element_wise_minus).
    { rewrite Htr. unfold last_writer. rewrite <- app_assoc.
      rewrite (find_app_none _ _ _ Hg). reflexivity. }
    destruct (fltb d F0); apply Some_eq in H; subst out.
    + rewrite Hf. repeat split. exact Hw.
    + exists d, e, s. split; [reflexivity|]. rewrite Hf at 1 2.
      split; [reflexivity|]. split; [reflexivity|]. split; [exact Hw|].
      rewrite accept_eq. cbv zeta. cbn [f trace]. rewrite Hx.
      split; reflexivity.
Qed.

(** C8 (as the code has it): in every call, each call of the trace that
    reads a buffer was issued after the last call that wrote that buffer,
    and when that writer returned a completion handle the handle is reached
    from the reader's dependency list, directly or through the dependency
    lists of the calls it lists.  The line search returns no handle: every
    commit [copy] of [buffer2] into [x] is issued with an empty dependency
    list, after the line search that wrote [buffer2] has returned. *)
Theorem calls_ordered_through_dependencies
        (f0 : obj) x0 tol maxiter maxinner deps alloc :
  exists r,
    newton_cg f0 x0 tol maxiter maxinner deps alloc = Some r /\
    ordered (trace (res_state r)) = true /\
    commits_follow_line_search (trace (res_state r)) = true.
Proof.
  destruct (newton_cg_total f0 x0 tol maxiter maxinner deps alloc) as [r H].
  exists r. split; [exact H|]. unfold newton_cg in H.
  set (st0 := entry f0 x0 tol deps alloc) in *.
  destruct (outer_loop_exit _ _ _ _ st0 st0 r (reaches_refl _ _ _ _) H)
    as (st_h & Hr & He).
  assert (HP : head_ordered st_h).
  { apply (reaches_inv tol maxiter maxinner head_ordered st0);
      [repeat split | | exact Hr].
    intros s s' Hs Hb. destruct (outer_body_ordered _ _ _ _ Hs Hb) as (_ & _ & Hk).
    apply Hk. reflexivity. }
  destruct He as [Hc Hres | st' Hc Hb Hres | ev o i st' Hc Hb Hres]; subst r.
  - destruct HP as (H1 & H2 & _). auto.
  - destruct (outer_body_ordered _ _ _ _ HP Hb) as (H1 & H2 & _). auto.
  - destruct (outer_body_ordered _ _ _ _ HP Hb) as (H1 & H2 & _). auto.
Qed.

End Claims.

(** * Accounting over a whole call *)

Section Accounting.

Context {Float Hidden : Type}.
Context {FO : FloatOps Float}.
Context {BF : base_function Float Hidden}.
Context {PR : Primitives Float Hidden}.

Local Abbreviation state := (@state Float Hidden).
Local Abbreviation obj := (objective Float Hidden).

Lemma count_app (p : op Float -> bool) (l l' : list (op Float)) :
  count p (l ++ l') = (count p l + count p l')%nat.
Proof. unfold count. rewrite filter_app, length_app. reflexivity. Qed.

Lemma Zsum_app (l l' : list Z) : Zsum (l ++ l') = Zsum l + Zsum l'.
Proof. unfold Zsum. induction l as [|a l IH]; simpl; lia. Qed.

Lemma cg_inners_app (l l' : list (op Float)) :
  cg_inners (l ++ l') = cg_inners l ++ cg_inners l'.
Proof. unfold cg_inners. apply flat_map_app. Qed.

Lemma updates_chained_app (deps : event_vector) (seg tr : list (op Float)) :
  count is_update_x seg = 0%nat ->
  updates_chained deps tr -> updates_chained deps (seg ++ tr).
Proof.
  induction seg as [|o seg IH]; intros Hc Ht; [exact Ht|].
  unfold count in Hc. cbn [filter] in Hc. cbn [app updates_chained].
  destruct (is_update_x o) eqn:Eo; [discriminate|].
  split; [discriminate | apply IH; assumption].
Qed.

(** The calls of the descent-direction loop are no [update_x], line search
    or commit. *)
Lemma search_call_counts (seg : list (op Float)) :
  forallb search_call seg = true ->
  count is_update_x seg = 0%nat /\ count is_backtracking seg = 0%nat /\
  count is_copy seg = 0%nat /\ find is_copy seg = None.
Proof.
  unfold count. induction seg as [|o seg IH]; intros H; [repeat split|].
  cbn [forallb] in H. apply andb_true_iff in H. destruct H as [Ho Hs].
  destruct (IH Hs) as (H1 & H2 & H3 & H4).
  cbn [filter find]. unfold search_call in Ho.
  unfold is_update_x, is_backtracking, is_copy in *.
  destruct (op_call o); try discriminate; auto.
Qed.

(** The attempts of the descent-direction loop of an iteration: at most
    ten [cg_solve] calls, whose inner iterations are added to
    [inner_iter_sum]. *)
Lemma search_counts (maxinner : Z) (st : state) desc ev s :
  search maxinner st = Some (desc, ev, s) ->
  exists seg,
    trace s = (seg ++ entry_ops st) ++ trace st /\
    forallb search_call seg = true /\
    (count is_cg_solve seg <= 10)%nat /\
    inner_iter_sum s = inner_iter_sum st + Zsum (cg_inners seg).
Proof.
  intros H. unfold search in H.
  destruct (retry_loop_inv maxinner
              (fun _ n _ _ s0 =>
                 exists seg,
                   trace s0 = seg ++ trace (search_entry st) /\
                   forallb search_call seg = true /\
                   Z.of_nat (count is_cg_solve seg) = n /\ n <= 10 /\
                   inner_iter_sum s0 = inner_iter_sum st + Zsum (cg_inners seg)))
    with (3 := H) as (n' & tol' & (seg & Htr & Hall & Hn & Hle & Hsum) & _).
  - intros d n t e s0 (seg & Htr & Hall & Hn & Hle & Hsum) _ Hlt tol'.
    rewrite attempt_eq. cbv zeta. cbn [fst snd trace inner_iter_sum].
    exists (attempt_ops maxinner tol' e s0 ++ seg).
    split; [rewrite Htr, app_assoc; reflexivity|].
    split; [rewrite forallb_app, Hall; reflexivity|].
    rewrite count_app, cg_inners_app, Zsum_app.
    replace (count is_cg_solve (attempt_ops maxinner tol' e s0)) with 1%nat
      by reflexivity.
    replace (Zsum (cg_inners (attempt_ops maxinner tol' e s0)))
      with (cg_inner_iter (cg_solve (get_hessian_product (f s0)) (gradient (f s0))
                                    (direction s0) tol' F0 maxinner) + 0)
      by reflexivity.
    split; [lia|]. split; [lia|]. rewrite Hsum. lia.
  - exists []. split; [reflexivity|]. split; [reflexivity|].
    split; [reflexivity|]. split; [lia|].
    cbn [cg_inners flat_map Zsum fold_right]. rewrite Z.add_0_r. reflexivity.
  - exists seg. rewrite Htr, search_entry_trace, app_assoc.
    split; [reflexivity|]. split; [exact Hall|]. split; [lia | exact Hsum].
Qed.

Lemma entry_ops_counts (st : state) :
  count is_update_x (entry_ops st) = 1%nat /\
  count is_cg_solve (entry_ops st) = 0%nat /\
  count is_backtracking (entry_ops st) = 0%nat /\
  count is_copy (entry_ops st) = 0%nat /\
  find is_copy (entry_ops st) = None /\
  cg_inners (entry_ops st) = [].
Proof. unfold entry_ops, prepare_ops, evaluate_ops. repeat split. Qed.

Lemma evaluate_ops_counts (st : state) :
  count is_update_x (evaluate_ops st) = 1%nat /\
  count is_cg_solve (evaluate_ops st) = 0%nat /\
  count is_backtracking (evaluate_ops st) = 0%nat /\
  count is_copy (evaluate_ops st) = 0%nat /\
  find is_copy (evaluate_ops st) = None /\
  cg_inners (evaluate_ops st) = [].
Proof. unfold evaluate_ops. repeat split. Qed.

Lemma find_app_None {A : Type} (p : A -> bool) (l l' : list A) :
  find p l = None -> find p (l ++ l') = find p l'.
Proof.
  induction l as [|a l IH]; simpl; [reflexivity|].
  destruct (p a); [discriminate | exact IH].
Qed.

Lemma last_commit_app (seg tr : list (op Float)) :
  find is_copy seg = None -> last_commit (seg ++ tr) = last_commit tr.
Proof. intros H. unfold last_commit. rewrite (find_app_None _ _ _ H). reflexivity. Qed.

(** The [update_x] of an iteration is issued with [last_iter_deps]. *)
Lemma updates_chained_evaluate (deps : event_vector) (st : state) :
  updates_chained deps (trace st) ->
  match trace st with
  | [] => last_iter_deps st = deps
  | c :: _ =>
      is_copy c = true /\ op_event c = Some (last st) /\ last_iter_deps st = [last st]
  end ->
  updates_chained deps (evaluate_ops st ++ trace st).
Proof.
  intros Hc Hh. unfold evaluate_ops.
  cbn [app updates_chained is_update_x op_call op_deps].
  repeat (split; [discriminate|]).
  split; [|exact Hc]. intros _.
  destruct (trace st) as [|c tr]; [exact Hh|].
  destruct Hh as (H1 & H2 & H3). rewrite H2, H3. split; [exact H1 | reflexivity].
Qed.

(** One iteration keeps the accounts. *)
Lemma outer_body_accounted (deps : event_vector) (tol : Float) (maxinner : Z)
      (st : state) out :
  accounted deps st ->
  outer_body tol maxinner st = Some out ->
  cur_iter_id (state_of out) = Z.of_nat (count is_update_x (trace (state_of out))) /\
  inner_iter_sum (state_of out) = Zsum (cg_inners (trace (state_of out))) /\
  (count is_cg_solve (trace (state_of out))
   <= 10 * count is_update_x (trace (state_of out)))%nat /\
  count is_backtracking (trace (state_of out)) = count is_copy (trace (state_of out)) /\
  (count is_copy (trace (state_of out))
   <= count is_update_x (trace (state_of out)))%nat /\
  updates_chained deps (trace (state_of out)) /\
  match out with
  | Break st' =>
      last st' = last_commit (trace st') /\
      S (count is_copy (trace st')) = count is_update_x (trace st')
  | Return ev outer inner st' =>
      outer = cur_iter_id st' /\ inner = inner_iter_sum st' /\
      option_map op_event (hd_error (trace st')) = Some (Some ev) /\
      S (count is_copy (trace st')) = count is_update_x (trace st')
  | Continue st' => accounted deps st'
  end.
Proof.
  intros (Hcur & Hin & Hcg & Hbt & Hcp & Hlast & Hch & Hhead) H.
  rewrite outer_body_eq in H.
  destruct (evaluate_ops_counts st) as (V1 & V2 & V3 & V4 & V5 & V6).
  destruct (entry_ops_counts st) as (E1 & E2 & E3 & E4 & E5 & E6).
  pose proof (updates_chained_evaluate deps st Hch Hhead) as Hev.
  destruct (fltb (grad_max_abs_at st) tol).
  - apply Some_eq in H. subst out. cbn [state_of]. rewrite evaluate_eq.
    cbn [snd trace cur_iter_id inner_iter_sum last].
    rewrite !count_app, cg_inners_app, Zsum_app, V1, V2, V3, V4, V6,
      (last_commit_app _ _ V5).
    cbn [Zsum fold_right].
    split; [lia|]. split; [lia|]. split; [lia|]. split; [lia|]. split; [lia|].
    split; [exact Hev|]. split; [exact Hlast | lia].
  - destruct (search maxinner st) as [[[d e] s]|] eqn:E; [|discriminate].
    destruct (search_frame _ _ _ _ _ E) as (Hx & _ & Hc & _ & Hl & _).
    destruct (search_counts _ _ _ _ _ E) as (seg & Htr & Hall & Hten & Hsum).
    destruct (search_call_counts _ Hall) as (S1 & S2 & S3 & S4).
    assert (T7 : updates_chained deps (trace s)).
    { rewrite Htr, <- app_assoc. apply updates_chained_app; [exact S1|].
      unfold entry_ops. rewrite <- app_assoc.
      apply updates_chained_app; [reflexivity | exact Hev]. }
    assert (T1 : count is_update_x (trace s) = S (count is_update_x (trace st))).
    { rewrite Htr, !count_app, S1, E1. reflexivity. }
    assert (T2 : count is_cg_solve (trace s)
                 = (count is_cg_solve seg + count is_cg_solve (trace st))%nat).
    { rewrite Htr, !count_app, E2. lia. }
    assert (T3 : count is_backtracking (trace s) = count is_backtracking (trace st)).
    { rewrite Htr, !count_app, S2, E3. reflexivity. }
    assert (T4 : count is_copy (trace s) = count is_copy (trace st)).
    { rewrite Htr, !count_app, S3, E4. reflexivity. }
    assert (T5 : Zsum (cg_inners (trace s))
                 = Zsum (cg_inners seg) + Zsum (cg_inners (trace st))).
    { rewrite Htr, !cg_inners_app, !Zsum_app, E6. cbn [Zsum fold_right]. lia. }
    assert (T6 : last_commit (trace s) = last_commit (trace st)).
    { rewrite Htr, <- app_assoc, (last_commit_app _ _ S4), (last_commit_app _ _ E5).
      reflexivity. }
    destruct (fltb d F0); apply Some_eq in H; subst out; cbn [state_of].
    + rewrite T1, T2, T3, T4, T5, Hc, Hsum.
      split; [lia|]. split; [lia|]. split; [lia|]. split; [lia|]. split; [lia|].
      split; [exact T7|]. split; [reflexivity|]. split; [reflexivity|].
      split; [exact (search_last_event _ _ _ _ _ E) | lia].
    + rewrite accept_eq. cbv zeta.
      assert (A1 : count is_update_x (accept_ops e s) = 0%nat) by reflexivity.
      assert (A2 : count is_cg_solve (accept_ops e s) = 0%nat) by reflexivity.
      assert (A3 : count is_backtracking (accept_ops e s) = 1%nat) by reflexivity.
      assert (A4 : count is_copy (accept_ops e s) = 1%nat) by reflexivity.
      assert (A5 : cg_inners (accept_ops e s) = []) by reflexivity.
      assert (A7 : updates_chained deps (accept_ops e s ++ trace s))
        by (apply updates_chained_app; [exact A1 | exact T7]).
      unfold accounted. cbn [trace cur_iter_id inner_iter_sum last last_iter_deps].
      rewrite !count_app, !cg_inners_app, !Zsum_app,
        A1, A2, A3, A4, A5, T1, T2, T3, T4, T5, Hc, Hsum.
      cbn [Zsum fold_right].
      split; [lia|]. split; [lia|]. split; [lia|]. split; [lia|]. split; [lia|].
      split; [exact A7|].
      split; [lia|]. split; [lia|]. split; [lia|]. split; [lia|]. split; [lia|].
      split; [reflexivity|]. split; [exact A7|].
      unfold accept_ops. cbn [app]. repeat split.
Qed.

Lemma reaches_inv_guard (tol : Float) (maxiter maxinner : Z) (P : state -> Prop)
      (st0 : state) :
  P st0 ->
  (forall st st', P st -> (cur_iter_id st <? maxiter) = true ->
                  outer_body tol maxinner st = Some (Continue st') -> P st') ->
  forall st, reaches tol maxiter maxinner st0 st -> P st.
Proof.
  intros H0 Hstep st Hr. induction Hr; eauto.
Qed.

(** Every call comes back, from a loop head at which the accounts hold
    and the iteration counter is within the cap. *)
Lemma newton_cg_accounted (f0 : obj) x0 tol maxiter maxinner deps alloc :
  exists r st_h,
    newton_cg f0 x0 tol maxiter maxinner deps alloc = Some r /\
    exit_at tol maxiter maxinner st_h r /\
    accounted deps st_h /\
    0 <= cur_iter_id st_h <= Z.max 0 maxiter.
Proof.
  destruct (newton_cg_total f0 x0 tol maxiter maxinner deps alloc) as [r H].
  pose proof H as H'. unfold newton_cg in H'.
  set (st0 := entry f0 x0 tol deps alloc) in *.
  destruct (outer_loop_exit _ _ _ _ st0 st0 r (reaches_refl _ _ _ _) H')
    as (st_h & Hr & He).
  exists r, st_h. split; [exact H|]. split; [exact He|].
  apply (reaches_inv_guard tol maxiter maxinner
           (fun s => accounted deps s /\ 0 <= cur_iter_id s <= Z.max 0 maxiter) st0);
    [ | | exact Hr].
  - split; [unfold accounted, st0, entry; cbn [trace cur_iter_id inner_iter_sum
      last last_iter_deps]; repeat split; apply Nat.le_refl
           | unfold st0, entry; cbn [cur_iter_id]; lia].
  - intros s s' (Ha & Hb) Hg Ho.
    pose proof (outer_body_accounted deps _ _ _ _ Ha Ho) as (_ & _ & _ & _ & _ & _ & Hk).
    split; [exact Hk|]. apply outer_body_counts in Ho. cbn [state_of] in Ho.
    apply Z.ltb_lt in Hg. lia.
Qed.

(** X1: the number of outer iterations a call reports is the number of
    [update_x] calls it made, and lies between 0 and [maxiter] (0 when
    [maxiter] is negative). *)
Theorem outer_iterations_accounted (f0 : obj) x0 tol maxiter maxinner deps alloc :
  exists r,
    newton_cg f0 x0 tol maxiter maxinner deps alloc = Some r /\
    res_outer_iters r = Z.of_nat (count is_update_x (trace (res_state r))) /\
    0 <= res_outer_iters r <= Z.max 0 maxiter.
Proof.
  destruct (newton_cg_accounted f0 x0 tol maxiter maxinner deps alloc)
    as (r & st_h & H & He & Ha & Hb).
  exists r. split; [exact H|].
  destruct He as [Hc Hres | st' Hc Hb' Hres | ev o i st' Hc Hb' Hres]; subst r;
    cbn [leave res_outer_iters res_state].
  - destruct Ha as (Hcur & _). split; [exact Hcur | exact Hb].
  - pose proof (outer_body_accounted deps _ _ _ _ Ha Hb') as (Hcur & _).
    apply outer_body_counts in Hb'. cbn [state_of] in *.
    apply Z.ltb_lt in Hc. split; [exact Hcur | lia].
  - pose proof (outer_body_accounted deps _ _ _ _ Ha Hb')
      as (Hcur & _ & _ & _ & _ & _ & Ho & _).
    apply outer_body_counts in Hb'. cbn [state_of] in *.
    apply Z.ltb_lt in Hc. subst o. split; [exact Hcur | lia].
Qed.

(** X2: the number of inner iterations a call reports is the sum of the
    counts returned by all the [cg_solve] calls it made, and it made at most
    ten [cg_solve] calls for each [update_x] call. *)
Theorem inner_iterations_accounted (f0 : obj) x0 tol maxiter maxinner deps alloc :
  exists r,
    newton_cg f0 x0 tol maxiter maxinner deps alloc = Some r /\
    res_inner_iters r = Zsum (cg_inners (trace (res_state r))) /\
    (count is_cg_solve (trace (res_state r))
     <= 10 * count is_update_x (trace (res_state r)))%nat.
Proof.
  destruct (newton_cg_accounted f0 x0 tol maxiter maxinner deps alloc)
    as (r & st_h & H & He & Ha & Hb).
  exists r. split; [exact H|].
  destruct He as [Hc Hres | st' Hc Hb' Hres | ev o i st' Hc Hb' Hres]; subst r;
    cbn [leave res_inner_iters res_state].
  - destruct Ha as (_ & Hin & Hcg & _). split; assumption.
  - pose proof (outer_body_accounted deps _ _ _ _ Ha Hb') as (_ & Hin & Hcg & _).
    cbn [state_of] in *. split; assumption.
  - pose proof (outer_body_accounted deps _ _ _ _ Ha Hb')
      as (_ & Hin & Hcg & _ & _ & _ & _ & Hi & _).
    cbn [state_of] in *. subst i. split; assumption.
Qed.

(** X3: a call makes as many [backtracking] calls as [copy] calls, one of
    each for every iteration it completed: their number is the value of the
    iteration counter at the loop head where the call left the loop, which
    is the reported number of outer iterations when the loop condition
    failed there and one less when the iteration run there ended in the
    convergence [break] or in the failure return. *)
Theorem commits_accounted (f0 : obj) x0 tol maxiter maxinner deps alloc :
  exists r st_h,
    newton_cg f0 x0 tol maxiter maxinner deps alloc = Some r /\
    exit_at tol maxiter maxinner st_h r /\
    count is_backtracking (trace (res_state r)) = count is_copy (trace (res_state r)) /\
    Z.of_nat (count is_copy (trace (res_state r))) = cur_iter_id st_h /\
    res_outer_iters r
    = cur_iter_id st_h + (if cur_iter_id st_h <? maxiter then 1 else 0).
Proof.
  destruct (newton_cg_accounted f0 x0 tol maxiter maxinner deps alloc)
    as (r & st_h & H & He & Ha & Hb).
  exists r, st_h. split; [exact H|]. split; [exact He|].
  pose proof Ha as (Hcur & _ & _ & Hbt & Hcp & _).
  destruct He as [Hc Hres | st' Hc Hb' Hres | ev o i st' Hc Hb' Hres]; subst r;
    cbn [leave res_outer_iters res_state]; rewrite Hc.
  - split; [exact Hbt|]. split; lia.
  - pose proof (outer_body_accounted deps _ _ _ _ Ha Hb')
      as (Hcur' & _ & _ & Hbt' & _ & _ & _ & Hs).
    apply outer_body_counts in Hb'. cbn [state_of] in *.
    split; [exact Hbt'|]. split; lia.
  - pose proof (outer_body_accounted deps _ _ _ _ Ha Hb')
      as (Hcur' & _ & _ & Hbt' & _ & _ & Ho & _ & _ & Hs).
    apply outer_body_counts in Hb'. cbn [state_of] in *.
    split; [exact Hbt'|]. split; lia.
Qed.

(** X4: the event a call returns: when the call returns from a failed
    descent-direction search it is the handle of the newest call of the
    trace; otherwise it is the handle of the newest [copy], and the
    default-constructed event when the call made no [copy]. *)
Theorem returned_event (f0 : obj) x0 tol maxiter maxinner deps alloc :
  exists r st_h,
    newton_cg f0 x0 tol maxiter maxinner deps alloc = Some r /\
    exit_at tol maxiter maxinner st_h r /\
    if (cur_iter_id st_h <? maxiter) && is_return (outer_body tol maxinner st_h)
    then option_map op_event (hd_error (trace (res_state r))) = Some (Some (res_event r))
    else res_event r = last_commit (trace (res_state r)).
Proof.
  destruct (newton_cg_accounted f0 x0 tol maxiter maxinner deps alloc)
    as (r & st_h & H & He & Ha & Hb).
  exists r, st_h. split; [exact H|]. split; [exact He|].
  destruct He as [Hc Hres | st' Hc Hb' Hres | ev o i st' Hc Hb' Hres]; subst r;
    cbn [leave res_event res_state]; rewrite Hc; cbn [andb].
  - destruct Ha as (_ & _ & _ & _ & _ & Hl & _). exact Hl.
  - pose proof (outer_body_accounted deps _ _ _ _ Ha Hb')
      as (_ & _ & _ & _ & _ & _ & Hl & _).
    rewrite Hb'. cbn [is_return]. exact Hl.
  - pose proof (outer_body_accounted deps _ _ _ _ Ha Hb')
      as (_ & _ & _ & _ & _ & _ & _ & _ & Hl & _).
    rewrite Hb'. cbn [is_return]. exact Hl.
Qed.

(** X5: the dependency lists of the [update_x] calls of a call: the
    first one, the oldest call of the trace, is issued with the caller's
    [deps]; every other one is issued right after a [copy], with the handle
    of that [copy] as its only dependency. *)
Theorem update_x_dependencies (f0 : obj) x0 tol maxiter maxinner deps alloc :
  exists r,
    newton_cg f0 x0 tol maxiter maxinner deps alloc = Some r /\
    updates_chained deps (trace (res_state r)).
Proof.
  destruct (newton_cg_accounted f0 x0 tol maxiter maxinner deps alloc)
    as (r & st_h & H & He & Ha & Hb).
  exists r. split; [exact H|].
  destruct He as [Hc Hres | st' Hc Hb' Hres | ev o i st' Hc Hb' Hres]; subst r;
    cbn [leave res_state].
  - destruct Ha as (_ & _ & _ & _ & _ & _ & Hch & _). exact Hch.
  - pose proof (outer_body_accounted deps _ _ _ _ Ha Hb')
      as (_ & _ & _ & _ & _ & Hch & _). exact Hch.
  - pose proof (outer_body_accounted deps _ _ _ _ Ha Hb')
      as (_ & _ & _ & _ & _ & Hch & _). exact Hch.
Qed.

(** X6: when the allocation has the [4 * n + 1] values the code asks for,
    [buffer1], [buffer2], [buffer3] and [direction] have [n] values each
    and are consecutive pieces of it that do not overlap: laid end to end
    and followed by the one value [tmp_gpu] points to, they are the
    allocation. *)
Theorem scratch_slices_partition (f0 : obj) x0 tol deps (alloc : list Float) :
  length alloc = (4 * length x0 + 1)%nat ->
  length (buffer1 (entry f0 x0 tol deps alloc)) = length x0 /\
  length (buffer2 (entry f0 x0 tol deps alloc)) = length x0 /\
  length (buffer3 (entry f0 x0 tol deps alloc)) = length x0 /\
  length (direction (entry f0 x0 tol deps alloc)) = length x0 /\
  exists t,
    alloc = buffer1 (entry f0 x0 tol deps alloc) ++ buffer2 (entry f0 x0 tol deps alloc)
            ++ buffer3 (entry f0 x0 tol deps alloc)
            ++ direction (entry f0 x0 tol deps alloc) ++ [t].
Proof.
  intros Hlen. unfold entry. cbn [buffer1 buffer2 buffer3 direction].
  set (n := length x0) in *. unfold get_slice.
  replace (n - 0)%nat with n by lia.
  replace (2 * n - n)%nat with n by lia.
  replace (3 * n - 2 * n)%nat with n by lia.
  replace (4 * n - 3 * n)%nat with n by lia.
  rewrite !length_firstn, !length_skipn.
  repeat (split; [lia|]).
  assert (Hrest : length (skipn (4 * n) alloc) = 1%nat)
    by (rewrite length_skipn; lia).
  destruct (skipn (4 * n) alloc) as [|t [|t' rest]] eqn:Et; try discriminate.
  exists t. rewrite <- Et.
  replace (4 * n)%nat with (n + 3 * n)%nat at 1 by lia.
  replace (3 * n)%nat with (n + 2 * n)%nat at 2 by lia.
  replace (2 * n)%nat with (n + n)%nat at 2 by lia.
  cbn [skipn].
  rewrite <- !skipn_skipn.
  replace (3 * n)%nat with (n + (n + n))%nat by lia.
  replace (2 * n)%nat with (n + n)%nat by lia.
  rewrite <- !skipn_skipn.
  rewrite !firstn_skipn. reflexivity.
Qed.

End Accounting.

(** * Runs: the statements at concrete inputs *)

Section RationalLaws.

Lemma Qltb_false (a b : Q) : fltb a b = false <-> (b <= a)%Q.
Proof.
  change (fltb a b) with (negb (Qle_bool b a)).
  rewrite negb_false_iff. apply Qle_bool_iff.
Qed.

Lemma rational_sqrt_nonneg (g : Q) : fltb (fsqrt g) F0 = false.
Proof.
  apply Qltb_false. change (0 <= inject_Z (Z.sqrt (Qnum g / Zpos (Qden g))))%Q.
  unfold Qle. simpl. rewrite Z.mul_1_r. apply Z.sqrt_nonneg.
Qed.

Lemma rational_tenth (t : Q) :
  fltb t F0 = false ->
  fltb (fdiv t F10) F0 = false /\ fltb t (fdiv t F10) = false.
Proof.
  intros H. apply Qltb_false in H. change F0 with 0%Q in *.
  change (fdiv t F10) with (Qred (t / inject_Z 10)).
  split; apply Qltb_false; rewrite Qred_correct;
    unfold Qdiv; change (/ inject_Z 10)%Q with (1 # 10)%Q; lra.
Qed.

End RationalLaws.

Section Witnesses.

Import Reference Runs.

Local Open Scope float_scope.

(** C9 at [maxiter = 0], on the quadratic objective. *)
Lemma newton_cg_no_iteration_witness :
  exists r,
    double_solve quadratic true [1; 1] tol20 0 5 = Some r /\
    res_outer_iters r = 0%Z /\ trace (res_state r) = [].
Proof.
  destruct (@newton_cg_no_iteration float (list float) double_ops quadratic
              (double_primitives quadratic true) fresh [1; 1] tol20 0 5 []
              (repeat 0 (4 * length [1; 1] + 1)))
    as (r & H & _ & Ho & _ & _ & _ & Ht); [lia|].
  exists r. auto.
Defined.

(** C5 with [tol = 2] at [x0 = (1, 1)], where the gradient is [(1, 1)]. *)
Lemma newton_cg_converged_at_start_witness :
  exists r,
    double_solve quadratic true [1; 1] 2 3 5 = Some r /\
    res_outer_iters r = 1%Z /\ res_inner_iters r = 0%Z /\ x (res_state r) = [1; 1].
Proof.
  destruct (@newton_cg_converged_at_start float (list float) double_ops quadratic
              (double_primitives quadratic true) fresh [1; 1] 2 3 5 []
              (repeat 0 (4 * length [1; 1] + 1)))
    as (r & H & Ho & Hi & _ & Hx & _); [lia | reflexivity |].
  exists r. auto.
Defined.

(** The descent-direction loop on the quadratic objective: one attempt,
    then the line search. *)
Lemma descent_search_retries_witness :
  exists out A0 a,
    @outer_body float (list float) double_ops quadratic
                (double_primitives quadratic true) tol20 5 (double_entry [1; 1] tol20)
    = Some out /\
    attempts (since [] (trace (state_of out))) = A0 ++ [a].
Proof.
  destruct (@descent_search_retries float (list float) double_ops quadratic
              (double_primitives quadratic true) tol20 5 (double_entry [1; 1] tol20))
    as (out & A0 & a & H & HA & _); [reflexivity | reflexivity |].
  exists out, A0, a. auto.
Defined.

(** The descent-direction search at zero: with [maxinner = 0] the solver
    makes no step, the direction stays zero and [desc] is 0; the iteration
    goes on to the line search after this single attempt. *)
Lemma zero_descent_proceeds : ~ only_positive_descent_proceeds.
Proof.
  intros H.
  assert (Ho : exists st',
             @outer_body float (list float) double_ops quadratic
                         (double_primitives quadratic true) tol20 0
                         (double_entry [1; 1] tol20)
             = Some (Continue st') /\
             attempts (since (trace (double_entry [1; 1] tol20)) (trace st'))
             = [mk_attempt_info 0.5 0%Z 0]).
  { vm_compute. eexists. split; reflexivity. }
  destruct Ho as (st' & Ho & HA).
  destruct (H float (list float) double_ops quadratic
              (double_primitives quadratic true) tol20 0%Z
              (double_entry [1; 1] tol20) st' Ho) as (A & a & HA' & Hpos).
  rewrite HA in HA'.
  destruct A as [|b A]; simpl in HA'.
  - injection HA' as <-. vm_compute in Hpos. discriminate.
  - injection HA' as _ HA'. destruct A; discriminate.
Qed.


(** C4 over the rationals, on the failing search of the concave objective. *)
Lemma inner_tolerance_schedule_witness :
  exists out a b,
    @outer_body Q (list Q) rational_ops concave (rational_primitives concave false)
                (1 # 1000)%Q 1 (rational_entry [1%Q; 1%Q] (1 # 1000)%Q)
    = Some out /\
    nth_error (attempts (since [] (trace (state_of out)))) 0 = Some a /\
    nth_error (attempts (since [] (trace (state_of out)))) 1 = Some b /\
    at_tol b = fdiv (at_tol a) F10 /\ fltb (at_tol a) (at_tol b) = false.
Proof.
  assert (Ho : exists out a b,
             @outer_body Q (list Q) rational_ops concave
                         (rational_primitives concave false) (1 # 1000)%Q 1
                         (rational_entry [1%Q; 1%Q] (1 # 1000)%Q)
             = Some out /\
             nth_error (attempts (since (trace (rational_entry [1%Q; 1%Q] (1 # 1000)%Q))
                                        (trace (state_of out)))) 0 = Some a /\
             nth_error (attempts (since (trace (rational_entry [1%Q; 1%Q] (1 # 1000)%Q))
                                        (trace (state_of out)))) 1 = Some b).
  { vm_compute. do 3 eexists. repeat split; reflexivity. }
  destruct Ho as (out & a & b & Ho & Ha & Hb).
  destruct (@inner_tolerance_schedule Q (list Q) rational_ops concave
              (rational_primitives concave false) (1 # 1000)%Q 1
              (rational_entry [1%Q; 1%Q] (1 # 1000)%Q) out
              rational_sqrt_nonneg eq_refl rational_tenth Ho) as (_ & Hstep).
  destruct (Hstep 0%nat a b Ha Hb) as (H1 & H2).
  exists out, a, b. repeat split; assumption.
Defined.

(** C6 on the quadratic objective: the first iteration is accepted. *)
Lemma accepted_step_update_norm_witness :
  exists st' desc ev s,
    @outer_body float (list float) double_ops quadratic
                (double_primitives quadratic true) tol20 5 (double_entry [1; 1] tol20)
    = Some (Continue st') /\
    @search float (list float) double_ops quadratic (double_primitives quadratic true)
            5 (double_entry [1; 1] tol20) = Some (desc, ev, s) /\
    update_norm st'
    = PrimFloat.mul
        (PrimFloat.sqrt (ref_dot_product (direction s) (direction s)))
        (ls_alpha (@ref_backtracking float double_ops (list float) quadratic
                                     (f s) [1; 1] (direction s) 1 F1e_4 true)).
Proof.
  assert (Ho : exists st',
             @outer_body float (list float) double_ops quadratic
                         (double_primitives quadratic true) tol20 5
                         (double_entry [1; 1] tol20)
             = Some (Continue st')).
  { vm_compute. eexists. reflexivity. }
  destruct Ho as (st' & Ho).
  destruct (proj1 (@accepted_step_update_norm float (list float) double_ops quadratic
                     (double_primitives quadratic true) tol20 3 5
                     (double_entry [1; 1] tol20)) st' Ho)
    as (desc & ev & s & Hs & _ & Hn).
  exists st', desc, ev, s. repeat split; assumption.
Defined.

(** C7 on the quadratic objective: the call commits once and converges. *)
Lemma iterate_written_by_commit_only_witness :
  exists r,
    double_solve quadratic true [1; 1] tol20 3 5 = Some r /\
    forallb x_written_by_copy (trace (res_state r)) = true /\
    exists st_h : @state float (list float),
      @reaches float (list float) double_ops quadratic
               (double_primitives quadratic true) tol20 3 5
               (double_entry [1; 1] tol20) st_h /\
      x (res_state r) = x st_h.
Proof.
  destruct (newton_cg_total (FO := double_ops) (BF := quadratic)
              (PR := double_primitives quadratic true)
              fresh [1; 1] tol20 3 5 [] (repeat 0 (4 * length [1; 1] + 1)))
    as (r & Hr).
  destruct (proj2 (@iterate_written_by_commit_only float (list float) double_ops
                     quadratic (double_primitives quadratic true) tol20 3 5)
                  fresh [1; 1] [] (repeat 0 (4 * length [1; 1] + 1)) r Hr)
    as (H1 & _ & st_h & H2 & _ & H3).
  exists r. split; [exact Hr|]. split; [exact H1|]. exists st_h. split; assumption.
Defined.

(** C10 on the concave objective: the gradient at [(1, 1)] is [(-1, -2)]
    and the objective comes back from the failed search holding
    [(1, 2)]. *)
Lemma gradient_left_negated_witness :
  exists ev outer inner st',
    @outer_body float (list float) double_ops concave
                (double_primitives concave false) tol20 1 (double_entry [1; 1] tol20)
    = Some (Return ev outer inner st') /\
    gradient (f st') = [1; 2].
Proof.
  assert (Ho : exists ev outer inner st',
             @outer_body float (list float) double_ops concave
                         (double_primitives concave false) tol20 1
                         (double_entry [1; 1] tol20)
             = Some (Return ev outer inner st')).
  { vm_compute. do 4 eexists. reflexivity. }
  destruct Ho as (ev & outer & inner & st' & Ho).
  pose proof (@gradient_left_negated float (list float) double_ops concave
                (double_primitives concave false) tol20 1
                (double_entry [1; 1] tol20) _ Ho) as (Hg & _).
  exists ev, outer, inner, st'. split; [exact Ho|]. rewrite Hg. reflexivity.
Defined.

(** The commit [copy] of a run on the quadratic objective: it is issued
    with an empty dependency list and reads [buffer2], last written by the
    line search; the rule of the specification fails on this trace. *)
Lemma commit_copy_lists_no_producer : ~ every_reader_lists_its_producer.
Proof.
  intros H.
  assert (Hr : exists r newer o older,
             @newton_cg float (list float) double_ops quadratic
                        (double_primitives quadratic true) fresh [1; 1] tol20 1 5 []
                        (repeat 0 9)
             = Some r /\
             trace (res_state r) = newer ++ o :: older /\
             op_call o = c_copy /\ op_deps o = [] /\ op_reads o = [Buffer2] /\
             option_map is_backtracking (last_writer Buffer2 older) = Some true /\
             declares_producers (trace (res_state r)) = false).
  { vm_compute. eexists. exists []. do 2 eexists. repeat split; reflexivity. }
  destruct Hr as (r & _ & _ & _ & Hr & _ & _ & _ & _ & _ & Hd).
  apply H in Hr. rewrite Hr in Hd. discriminate.
Qed.

(** C1: the code goes on to the line search after an attempt whose [desc]
    is 0, which is not a descent direction ([0 < 0] is false).  With
    [maxinner = 0] on the quadratic objective the solver makes no step, the
    direction stays zero and each iteration makes a single attempt with
    [desc = 0], runs the line search and commits.  On the concave
    objective with the curvature-tested solver every one of the seven
    iterations makes a single attempt with [desc = 0], runs the line search
    and commits; [x] never moves and the call leaves through the iteration
    cap, its event being the handle of the last commit, not through the
    return of a failed search. *)
Theorem zero_descent_is_accepted :
  PrimFloat.ltb 0 0 = false /\
  (exists r,
      double_solve quadratic true [1; 1] tol20 2 0 = Some r /\
      res_outer_iters r = 2%Z /\ x (res_state r) = [1; 1] /\
      map at_desc (attempts (trace (res_state r))) = [0; 0] /\
      length (filter is_cg_solve (trace (res_state r))) = 2%nat /\
      length (filter is_backtracking (trace (res_state r))) = 2%nat /\
      length (filter is_copy (trace (res_state r))) = 2%nat) /\
  (exists r,
      double_solve concave true [1; 1] tol20 7 5 = Some r /\
      res_outer_iters r = 7%Z /\ res_inner_iters r = 0%Z /\
      x (res_state r) = [1; 1] /\
      map at_desc (attempts (trace (res_state r))) = [0; 0; 0; 0; 0; 0; 0] /\
      length (filter is_cg_solve (trace (res_state r))) = 7%nat /\
      length (filter is_backtracking (trace (res_state r))) = 7%nat /\
      length (filter is_copy (trace (res_state r))) = 7%nat /\
      option_map op_call (hd_error (trace (res_state r))) = Some c_copy /\
      option_map op_event (hd_error (trace (res_state r))) = Some (Some (res_event r))).
Proof.
  split; [reflexivity|]. split.
  - vm_compute. eexists. repeat split; reflexivity.
  - vm_compute. eexists. repeat split; reflexivity.
Qed.

(** The gradient buffer after an accepted step on the quadratic objective:
    the gradient at [(1, 1)] is [(1, 1)], its negation is [(-1, -1)], and
    after the step the buffer holds [(0, 0)], the gradient at the point the
    line search evaluated last. *)
Lemma line_search_overwrites_gradient : ~ gradient_stays_negated.
Proof.
  intros H.
  assert (Ho : exists st',
             @outer_body float (list float) double_ops quadratic
                         (double_primitives quadratic true) tol20 5
                         (double_entry [1; 1] tol20)
             = Some (Continue st') /\
             gradient (f st') = [0; 0]).
  { vm_compute. eexists. split; reflexivity. }
  destruct Ho as (st' & Ho & Hg).
  pose proof (H float (list float) double_ops quadratic
                (double_primitives quadratic true) tol20 5%Z
                (double_entry [1; 1] tol20) (Continue st') Ho eq_refl) as Hn.
  cbn [state_of] in Hn. rewrite Hg in Hn.
  apply (f_equal (fun l => match l with
                           | a :: _ => PrimFloat.ltb a 0
                           | [] => false
                           end)) in Hn.
  vm_compute in Hn. discriminate.
Qed.

(** X6 at [n = 2] with a zeroed allocation of 9 values. *)
Lemma scratch_slices_partition_witness :
  length (buffer1 (double_entry [1; 1] tol20)) = 2%nat /\
  length (direction (double_entry [1; 1] tol20)) = 2%nat.
Proof.
  destruct (@scratch_slices_partition float (list float) double_ops fresh
              [1; 1] tol20 [] (repeat 0 (4 * length [1; 1] + 1)) eq_refl)
    as (H1 & _ & _ & H4 & _).
  split; [exact H1 | exact H4].
Defined.

End Witnesses.
